(** * SMARTSCHEDULER: the allocation engine of [TaskScheduler.ts]

    A shallow embedding of [TaskModel.ts] (the task record and its two
    enumerations) and of the class [TaskScheduler], followed by the
    properties of the engine.

    Conventions of the embedding.
    - A JavaScript [Date] is its time value: an integer number of
      milliseconds ([Z]).  Dates are compared through that value, as [<],
      [<=] and [>=] on [Date] objects do.  [d.setMinutes(d.getMinutes() + m)]
      is [d + m * 60000] and [d.setHours(h, 0, 0, 0)] is the start of [d]'s
      day plus [h] hours: the time zone has a constant offset, which is
      folded into the time value.
    - [task.duration] is a whole number of minutes ([Z], any sign).
    - An optional field is an [option]; a [Date] object is always truthy, so
      [if (task.startTime)] tests presence.
    - [new Date()] reads the wall clock.  The clock is an oracle
      [wallClock : nat -> Date] giving the k-th reading made since the start
      of the execution; the world counts the readings made so far.
    - The caller's task array lives in a store of arrays ([gmap loc (list
      Task)]); the scheduler keeps the reference it was given, so what
      [Array.prototype.sort] does to the array is seen by the caller.
    - The slot grid is an array of distinct slot objects, each allocated by
      [generateTimeSlots]; a reference to a slot object is its index in the
      grid, [filter] yields a list of such references, and
      [slot.available = false] updates the grid at that index. *)

(** Around the engine the development also embeds
    [SchedulingUtility.createScheduler], the reducers of the task slice and
    the two pure selectors of the store, [TaskFactory.createTask] and
    [TaskValidator.validate] with the part of the form's [handleSubmit] that
    decides between saving and rejecting, and the calendar events of
    [SmartCalendar].  [String.prototype.trim] and the identifier [uuidv4()]
    returns are taken as parameters.  [TaskStorageService] (the text format
    of [JSON] and [localStorage]), the thunks (dispatch on the store) and
    [selectUpcomingTasks] (a clock reading under memoization) are not
    embedded. *)

From stdpp Require Import gmap strings list fin_maps sorting.
From Equations Require Import Equations.
From Stdlib Require Import ZArith Lia.

Open Scope Z_scope.

(** ** TaskModel.ts *)

Definition Date := Z.

Inductive TaskType := FIXED | ROUTINE | FLEXIBLE.
Inductive TaskPriority := HIGH | MEDIUM | LOW.

(** The string values of the two enums, which are the keys of the ranking
    table. *)
Definition TaskType_value (k : TaskType) : string :=
  match k with
  | FIXED => "fixed"
  | ROUTINE => "routine"
  | FLEXIBLE => "flexible"
  end.

Definition TaskPriority_value (p : TaskPriority) : string :=
  match p with
  | HIGH => "high"
  | MEDIUM => "medium"
  | LOW => "low"
  end.

Record TimeRange := { range_start : Date; range_end : Date }.

(** [id] is spelled [task_id]. *)
Record Task := {
  task_id : string;
  name : string;
  type : TaskType;
  priority : TaskPriority;
  duration : Z;
  startTime : option Date;
  endTime : option Date;
  preferredTimeRange : option TimeRange;
  frequency : option string;
  createdAt : Date;
  updatedAt : Date
}.

(** The two object spreads of the engine: [{...task, endTime: e}] and
    [{...task, startTime: s, endTime: e}]. *)
Definition with_endTime (task : Task) (e : Date) : Task :=
  {| task_id := task_id task; name := name task; type := type task;
     priority := priority task; duration := duration task;
     startTime := startTime task; endTime := Some e;
     preferredTimeRange := preferredTimeRange task;
     frequency := frequency task; createdAt := createdAt task;
     updatedAt := updatedAt task |}.

Definition with_times (task : Task) (s e : Date) : Task :=
  {| task_id := task_id task; name := name task; type := type task;
     priority := priority task; duration := duration task;
     startTime := Some s; endTime := Some e;
     preferredTimeRange := preferredTimeRange task;
     frequency := frequency task; createdAt := createdAt task;
     updatedAt := updatedAt task |}.

(** ** TaskScheduler.ts: data *)

(** [end] is spelled [slot_end], [start] is [slot_start]. *)
Record TimeSlot := { slot_start : Date; slot_end : Date; available : bool }.

Definition loc := positive.

Record TaskScheduler := {
  tasks : loc;
  workdayStart : Date;
  workdayEnd : Date
}.

(** The world outside the engine: the store of task arrays and the number
    of clock readings made so far. *)
Record World := { arrays : gmap loc (list Task); clockReads : nat }.

(** A call either returns or throws an [Error] with a message. *)
Inductive Result (A : Type) :=
| Returned (a : A)
| Thrown (message : string).
Arguments Returned {A} a.
Arguments Thrown {A} message.

Definition M (A : Type) := World -> Result A * World.

#[global] Instance M_ret : MRet M := fun A a w => (Returned a, w).

(** A thrown error skips the rest of the computation; what was done to the
    world before it stays done. *)
#[global] Instance M_bind : MBind M := fun A B k m w =>
  match m w with
  | (Returned a, w') => k a w'
  | (Thrown message, w') => (Thrown message, w')
  end.

Definition throw {A} (message : string) : M A := fun w => (Thrown message, w).

Definition msPerMinute : Z := 60000.
Definition msPerHour : Z := 3600000.
Definition msPerDay : Z := 86400000.

(** [d.setMinutes(d.getMinutes() + m)] *)
Definition addMinutes (d : Date) (m : Z) : Date := d + m * msPerMinute.

(** [d.setHours(h, 0, 0, 0)] *)
Definition setHours (d : Date) (h : Z) : Date := d - d mod msPerDay + h * msPerHour.

Section Engine.

(** The k-th reading of the wall clock. *)
Variable wallClock : nat -> Date.

(** [new Date()] *)
Definition newDate : M Date :=
  fun w => (Returned (wallClock (clockReads w)),
            {| arrays := arrays w; clockReads := S (clockReads w) |}).

(** [constructor(tasks)] *)
Definition constructor (tasksRef : loc) : M TaskScheduler :=
  d1 ← newDate;
  d2 ← newDate;
  mret {| tasks := tasksRef; workdayStart := setHours d1 8; workdayEnd := setHours d2 20 |}.

(** ** prioritizeTasks *)

(** The object literal [priorityOrder]. *)
Definition priorityOrder : gmap string Z :=
  <[TaskType_value FLEXIBLE := 1]>
    (<[TaskType_value ROUTINE := 2]>
      (<[TaskPriority_value HIGH := 3]>
        (<[TaskType_value FIXED := 4]> ∅))).

(** [x || y] on a table lookup [x]: an absent key ([undefined]) and [0] are
    falsy. *)
Definition orElse (x : option Z) (y : Z) : Z :=
  match x with
  | Some v => if v =? 0 then y else v
  | None => y
  end.

(** [priorityOrder[a.type] || priorityOrder[a.priority] || 0] *)
Definition rank (a : Task) : Z :=
  orElse (priorityOrder !! TaskType_value (type a))
         (orElse (priorityOrder !! TaskPriority_value (priority a)) 0).

(** The comparator passed to [sort]. *)
Definition compareTasks (a b : Task) : Z := rank b - rank a.

(** [Array.prototype.sort] is stable: elements that compare equal keep
    their order, and [a] comes before [b] when the comparator is negative.
    For a comparator that is a difference of keys this fixes the result
    (lemma [sort_is_the_stable_sort]), which stable insertion computes. *)
Fixpoint sortInsert {A} (cmp : A -> A -> Z) (x : A) (l : list A) : list A :=
  match l with
  | [] => [x]
  | y :: l' => if 0 <? cmp x y then y :: sortInsert cmp x l' else x :: y :: l'
  end.

Fixpoint sort {A} (cmp : A -> A -> Z) (l : list A) : list A :=
  match l with
  | [] => []
  | x :: l' => sortInsert cmp x (sort cmp l')
  end.

(** [this.tasks.sort(...)]: sorts the array behind the reference and returns
    the same reference. *)
Definition prioritizeTasks (this : TaskScheduler) : M loc :=
  fun w =>
    (Returned (tasks this),
     {| arrays := <[tasks this := sort compareTasks (arrays w !!! tasks this)]> (arrays w);
        clockReads := clockReads w |}).

(** The elements of the array behind a reference, as [for (... of ...)]
    visits them. *)
Definition readArray (l : loc) : M (list Task) :=
  fun w => (Returned (arrays w !!! l), w).

(** ** generateTimeSlots *)

Definition slotMinutes : Z := 30.

(** The [while (currentTime < this.workdayEnd)] loop, with the array built
    so far.  It terminates because the number of half-hours left before
    [workdayEnd] decreases. *)
Equations? generateLoop (workdayEnd' currentTime : Date) (slots : list TimeSlot)
  : list TimeSlot by wf (Z.to_nat ((workdayEnd' - currentTime + 1799999) / 1800000)) lt :=
  generateLoop workdayEnd' currentTime slots with decide (currentTime < workdayEnd') => {
    | left _ :=
        let slotEnd := addMinutes currentTime slotMinutes in
        generateLoop workdayEnd' slotEnd
          (slots ++ [{| slot_start := currentTime; slot_end := slotEnd; available := true |}]);
    | right _ := slots }.
Proof.
  subst slotEnd. unfold addMinutes, slotMinutes, msPerMinute, Date in *.
  apply Z2Nat.inj_lt; [apply Z.div_pos; lia | apply Z.div_pos; lia |].
  assert (workdayEnd' - currentTime + 1799999
          = (workdayEnd' - (currentTime + 30 * 60000) + 1799999) + 1 * 1800000) as -> by lia.
  rewrite Z.div_add by lia. lia.
Qed.

Definition generateTimeSlots (this : TaskScheduler) : list TimeSlot :=
  generateLoop (workdayEnd this) (workdayStart this) [].

(** ** The helpers *)

(** [slotDuration >= requiredMinutes], where [slotDuration] is the exact
    quotient of the slot's length in milliseconds by [1000 * 60]. *)
Definition canFitTask (slot : TimeSlot) (task : Task) : bool :=
  bool_decide (duration task * msPerMinute ≤ slot_end slot - slot_start slot).

Definition calculateEndTime (task : Task) (startTime' : option Date) : M Date :=
  end' ← match startTime' with
         | Some s => mret s
         | None => newDate
         end;
  mret (addMinutes end' (duration task)).

Definition isWithinWorkday (this : TaskScheduler) (time : Date) : bool :=
  bool_decide (workdayStart this ≤ time) && bool_decide (time ≤ workdayEnd this).

(** ** Slot references *)

(** [slots.filter(p)]: the references (indices) of the slots that satisfy
    [p], in array order. *)
Fixpoint filterFrom (p : TimeSlot → bool) (i : nat) (slots : list TimeSlot) : list nat :=
  match slots with
  | [] => []
  | slot :: rest =>
      if p slot then i :: filterFrom p (S i) rest else filterFrom p (S i) rest
  end.

Definition filterSlots (p : TimeSlot → bool) (slots : list TimeSlot) : list nat :=
  filterFrom p 0 slots.

(** [refs.find(p)], the predicate reading the slot objects behind the
    references. *)
Fixpoint findSlot (p : TimeSlot → bool) (slots : list TimeSlot) (refs : list nat)
  : option nat :=
  match refs with
  | [] => None
  | i :: rest =>
      match slots !! i with
      | Some slot => if p slot then Some i else findSlot p slots rest
      | None => findSlot p slots rest
      end
  end.

(** [slot.available = false] on the object behind reference [i]. *)
Definition markUnavailable (slots : list TimeSlot) (i : nat) : list TimeSlot :=
  alter (λ slot, {| slot_start := slot_start slot; slot_end := slot_end slot;
                    available := false |}) i slots.

(** [selectedSlot.start] *)
Definition startOf (slots : list TimeSlot) (i : nat) : Date :=
  from_option slot_start 0 (slots !! i).

(** ** The placement strategies

    Each returns its result together with the slot grid as the call leaves
    it. *)

Definition scheduleFixedTask (this : TaskScheduler) (task : Task) : M Task :=
  match startTime task with
  | Some s =>
      if isWithinWorkday this s then
        e ← calculateEndTime task None;
        mret (with_endTime task e)
      else throw "Fixed task outside of workday"
  | None => throw "Fixed task outside of workday"
  end.

Definition scheduleTaskWithPreference (task : Task) (availableSlots : list TimeSlot)
  : M (option Task * list TimeSlot) :=
  match preferredTimeRange task with
  | None => mret (None, availableSlots)
  | Some range =>
      let preferredSlots :=
        filterSlots (λ slot, bool_decide (range_start range ≤ slot_start slot)
                             && bool_decide (slot_end slot ≤ range_end range)
                             && available slot) availableSlots in
      if bool_decide (0 < length preferredSlots)%nat then
        match findSlot (λ slot, canFitTask slot task) availableSlots preferredSlots with
        | Some selectedSlot =>
            let start := startOf availableSlots selectedSlot in
            let availableSlots' := markUnavailable availableSlots selectedSlot in
            e ← calculateEndTime task (Some start);
            mret (Some (with_times task start e), availableSlots')
        | None => mret (None, availableSlots)
        end
      else mret (None, availableSlots)
  end.

Definition scheduleFlexibleTask (task : Task) (availableSlots : list TimeSlot)
  : M (option Task * list TimeSlot) :=
  let availableForTask :=
    filterSlots (λ slot, available slot && canFitTask slot task) availableSlots in
  match availableForTask with
  | selectedSlot :: _ =>
      let start := startOf availableSlots selectedSlot in
      let availableSlots' := markUnavailable availableSlots selectedSlot in
      e ← calculateEndTime task (Some start);
      mret (Some (with_times task start e), availableSlots')
  | [] => mret (None, availableSlots)
  end.

(** ** scheduleTask and autoSchedule *)

#[global] Instance TaskType_eq_dec : EqDecision TaskType.
Proof. solve_decision. Defined.

Definition scheduleTask (this : TaskScheduler) (task : Task) (availableSlots : list TimeSlot)
  : M (option Task * list TimeSlot) :=
  if bool_decide (type task = FIXED) && bool_decide (is_Some (startTime task)) then
    placed ← scheduleFixedTask this task;
    mret (Some placed, availableSlots)
  else if bool_decide (is_Some (preferredTimeRange task)) then
    scheduleTaskWithPreference task availableSlots
  else
    scheduleFlexibleTask task availableSlots.

(** The body of [for (const task of sortedTasks)], over the tasks still to
    visit. *)
Fixpoint scheduleLoop (this : TaskScheduler) (sortedTasks : list Task)
    (availableSlots : list TimeSlot) (scheduledTasks : list Task) : M (list Task) :=
  match sortedTasks with
  | [] => mret scheduledTasks
  | task :: rest =>
      r ← scheduleTask this task availableSlots;
      match r.1 with
      | Some scheduledTask =>
          scheduleLoop this rest r.2 (scheduledTasks ++ [scheduledTask])
      | None => scheduleLoop this rest r.2 scheduledTasks
      end
  end.

Definition autoSchedule (this : TaskScheduler) : M (list Task) :=
  sortedTasks ← prioritizeTasks this;
  let availableSlots := generateTimeSlots this in
  toVisit ← readArray sortedTasks;
  scheduleLoop this toVisit availableSlots [].

(** ** Ghost instrumentation

    [scheduleTrace] is [scheduleLoop] with one change: next to each record
    it pushes, it keeps the task the record was made from.  Erasing the
    first components gives back [scheduleLoop] (lemma
    [scheduleLoop_erases_trace]). *)
Fixpoint scheduleTrace (this : TaskScheduler) (sortedTasks : list Task)
    (availableSlots : list TimeSlot) (trace : list (Task * Task)) : M (list (Task * Task)) :=
  match sortedTasks with
  | [] => mret trace
  | task :: rest =>
      r ← scheduleTask this task availableSlots;
      match r.1 with
      | Some scheduledTask =>
          scheduleTrace this rest r.2 (trace ++ [(task, scheduledTask)])
      | None => scheduleTrace this rest r.2 trace
      end
  end.

End Engine.

(** ** SchedulingUtility *)

(** [workdayStart], [workdayEnd] of the configuration are spelled with the
    prefix [config_]. *)
Record SchedulingConfig := {
  config_workdayStart : option Date;
  config_workdayEnd : option Date;
  breakBetweenTasks : option Z
}.

(** [SchedulingUtility.createScheduler(tasks, config?)]: the body of
    [if (config)] is empty. *)
Definition createScheduler (wallClock : nat → Date) (tasksRef : loc)
    (config : option SchedulingConfig) : M TaskScheduler :=
  scheduler ← constructor wallClock tasksRef;
  match config with
  | Some _ => mret scheduler
  | None => mret scheduler
  end.

(** ** TaskReduxStore.ts: the task slice

    A reducer of [createSlice] is written as a mutation of a draft of the
    state; the state it produces is the draft as the reducer leaves it. *)

(** [tasks] is spelled [stateTasks]. *)
Record TaskState := {
  stateTasks : list Task;
  loading : bool;
  error : option string
}.

Definition initialState : TaskState :=
  {| stateTasks := []; loading := false; error := None |}.

(** [array.findIndex(p)]: the index of the first element that satisfies
    [p], [-1] when there is none. *)
Fixpoint findIndexFrom {A} (p : A → bool) (i : Z) (l : list A) : Z :=
  match l with
  | [] => -1
  | x :: l' => if p x then i else findIndexFrom p (i + 1) l'
  end.

Definition findIndex {A} (p : A → bool) (l : list A) : Z := findIndexFrom p 0 l.

Definition setTasks (state : TaskState) (payload : list Task) : TaskState :=
  {| stateTasks := payload; loading := false; error := None |}.

Definition addTask (state : TaskState) (payload : Task) : TaskState :=
  {| stateTasks := stateTasks state ++ [payload];
     loading := loading state; error := error state |}.

Definition updateTask (state : TaskState) (payload : Task) : TaskState :=
  let index :=
    findIndex (λ t, bool_decide (task_id t = task_id payload)) (stateTasks state) in
  if bool_decide (index ≠ -1) then
    {| stateTasks := <[Z.to_nat index := payload]> (stateTasks state);
       loading := loading state; error := error state |}
  else state.

Definition removeTask (state : TaskState) (payload : string) : TaskState :=
  {| stateTasks := filter (λ t, task_id t ≠ payload) (stateTasks state);
     loading := loading state; error := error state |}.

Definition setLoading (state : TaskState) (payload : bool) : TaskState :=
  {| stateTasks := stateTasks state; loading := payload; error := error state |}.

Definition setError (state : TaskState) (payload : option string) : TaskState :=
  {| stateTasks := stateTasks state; loading := false; error := payload |}.

(** ** The selectors

    [tasks] of the root state is spelled [rootTasks].  The two selectors
    below are the result functions given to [createSelector]; they are pure,
    so memoization does not change what they return. *)
Record RootState := { rootTasks : TaskState }.

#[global] Instance TaskPriority_eq_dec : EqDecision TaskPriority.
Proof. solve_decision. Defined.

Definition selectTasksByType (state : RootState) (type' : TaskType) : list Task :=
  filter (λ task, type task = type') (stateTasks (rootTasks state)).

Definition selectTasksByPriority (state : RootState) (priority' : TaskPriority) : list Task :=
  filter (λ task, priority task = priority') (stateTasks (rootTasks state)).

(** ** TaskModel.ts: objects at run time, TaskFactory and TaskValidator

    [TaskFactory.createTask] builds its result by spreading a
    [Partial<Task>] over defaults, so the object it returns, although typed
    [Task], holds [undefined] wherever the partial holds it.  [TaskObject]
    is such an object, by what a read of each field gives ([None] is
    [undefined]); the fields carry the prefix [obj_]. *)
Record TaskObject := {
  obj_id : option string;
  obj_name : option string;
  obj_type : option TaskType;
  obj_priority : option TaskPriority;
  obj_duration : option Z;
  obj_startTime : option Date;
  obj_endTime : option Date;
  obj_preferredTimeRange : option TimeRange;
  obj_frequency : option string;
  obj_createdAt : option Date;
  obj_updatedAt : option Date
}.

(** A well-typed task, as an object. *)
Definition objectOf (task : Task) : TaskObject :=
  {| obj_id := Some (task_id task); obj_name := Some (name task);
     obj_type := Some (type task); obj_priority := Some (priority task);
     obj_duration := Some (duration task);
     obj_startTime := startTime task; obj_endTime := endTime task;
     obj_preferredTimeRange := preferredTimeRange task;
     obj_frequency := frequency task;
     obj_createdAt := Some (createdAt task); obj_updatedAt := Some (updatedAt task) |}.

(** An own property of a [Partial<Task>]: absent, or present and holding
    [undefined] ([Holds None]) or a value. *)
Inductive Key (A : Type) :=
| Absent
| Holds (value : option A).
Arguments Absent {A}.
Arguments Holds {A} value.

(** The fields carry the prefix [partial_]. *)
Record PartialTask := {
  partial_id : Key string;
  partial_name : Key string;
  partial_type : Key TaskType;
  partial_priority : Key TaskPriority;
  partial_duration : Key Z;
  partial_startTime : Key Date;
  partial_endTime : Key Date;
  partial_preferredTimeRange : Key TimeRange;
  partial_frequency : Key string;
  partial_createdAt : Key Date;
  partial_updatedAt : Key Date
}.

(** [partial.f] *)
Definition read {A} (key : Key A) : option A :=
  match key with
  | Absent => None
  | Holds value => value
  end.

(** [{ f: d, ...partial }.f]: a key of the partial, when present, replaces
    what the literal had put there. *)
Definition spreadOver {A} (d : option A) (key : Key A) : option A :=
  match key with
  | Absent => d
  | Holds value => value
  end.

(** [x || y] on a string: [undefined] and the empty string are falsy. *)
Definition orString (x : option string) (y : string) : string :=
  match x with
  | Some s => if bool_decide (s = "") then y else s
  | None => y
  end.

(** [createTask(partial)].  [fresh] is the identifier [uuidv4()] gives when
    it is called. *)
Definition createTask (wallClock : nat → Date) (fresh : string) (partial : PartialTask)
  : M TaskObject :=
  now ← newDate wallClock;
  mret {| obj_id := spreadOver (Some (orString (read (partial_id partial)) fresh))
                      (partial_id partial);
          obj_name := spreadOver (Some (orString (read (partial_name partial))
                                          "Untitled Task"))
                        (partial_name partial);
          obj_type := spreadOver (Some (default FLEXIBLE (read (partial_type partial))))
                        (partial_type partial);
          obj_priority := spreadOver (Some (default MEDIUM (read (partial_priority partial))))
                            (partial_priority partial);
          obj_duration := spreadOver (Some (orElse (read (partial_duration partial)) 30))
                            (partial_duration partial);
          obj_createdAt := spreadOver (Some (default now (read (partial_createdAt partial))))
                             (partial_createdAt partial);
          obj_updatedAt := spreadOver (Some now) (partial_updatedAt partial);
          obj_startTime := spreadOver None (partial_startTime partial);
          obj_endTime := spreadOver None (partial_endTime partial);
          obj_preferredTimeRange := spreadOver None (partial_preferredTimeRange partial);
          obj_frequency := spreadOver None (partial_frequency partial) |}.

Section Validation.

(** [String.prototype.trim], a built-in of the language. *)
Variable trim : string → string.

(** [!task.name || task.name.trim() === ''] *)
Definition nameMissing (task : TaskObject) : bool :=
  match obj_name task with
  | None => true
  | Some n => bool_decide (n = "") || bool_decide (trim n = "")
  end.

(** [task.duration <= 0]; [undefined <= 0] is false. *)
Definition durationNotPositive (task : TaskObject) : bool :=
  match obj_duration task with
  | None => false
  | Some d => bool_decide (d ≤ 0)
  end.

(** [task.type === TaskType.FIXED && !task.startTime] *)
Definition fixedWithoutStart (task : TaskObject) : bool :=
  bool_decide (obj_type task = Some FIXED) && bool_decide (obj_startTime task = None).

(** [TaskValidator.validate(task)] *)
Definition validate (task : TaskObject) : bool :=
  if nameMissing task then false
  else if durationNotPositive task then false
  else if fixedWithoutStart task then false
  else true.

(** EnhancedTaskFormModal.tsx, [handleSubmit]: the messages collected when
    the task is not valid. *)
Definition validationErrors (taskToValidate : TaskObject) : list string :=
  let errors := [] in
  let errors := if nameMissing taskToValidate
                then errors ++ ["Task name is required"] else errors in
  let errors := if durationNotPositive taskToValidate
                then errors ++ ["Task duration must be greater than 0 minutes"]
                else errors in
  let errors := if fixedWithoutStart taskToValidate
                then errors ++ ["Fixed tasks require a start time"] else errors in
  errors.

(** What [handleSubmit] does with the form data: it hands the created task
    to [onSave], or shows the messages. *)
Inductive Submission :=
| Saved (task : TaskObject)
| Rejected (errors : list string).

Definition handleSubmit (wallClock : nat → Date) (fresh : string) (formData : PartialTask)
  : M Submission :=
  taskToValidate ← createTask wallClock fresh formData;
  if validate taskToValidate then mret (Saved taskToValidate)
  else mret (Rejected (validationErrors taskToValidate)).

End Validation.

(** ** SmartCalendar.tsx: the calendar events *)

Definition TASK_COLORS : gmap string string :=
  <[TaskType_value FLEXIBLE := "#2A9D8F"]>
    (<[TaskType_value ROUTINE := "#6A5ACD"]>
      (<[TaskType_value FIXED := "#FFD700"]>
        (<[TaskPriority_value LOW := "#A8DADC"]>
          (<[TaskPriority_value MEDIUM := "#4ECDC4"]>
            (<[TaskPriority_value HIGH := "#FF6B6B"]> ∅))))).

(** [x || y] on two table lookups. *)
Definition orLookup (x y : option string) : option string :=
  match x with
  | Some s => if bool_decide (s = "") then y else Some s
  | None => y
  end.

(** [id], [start], [end] and the two [extendedProps] are spelled with the
    prefix [event_]. *)
Record EventInput := {
  event_id : string;
  title : string;
  event_start : option Date;
  event_end : option Date;
  backgroundColor : option string;
  event_type : TaskType;
  event_priority : TaskPriority
}.

(** [tasks.map(task => ({ ... }))] *)
Definition calendarEvents (tasks' : list Task) : list EventInput :=
  (λ task,
     {| event_id := task_id task;
        title := name task;
        event_start := startTime task;
        event_end := endTime task;
        backgroundColor :=
          orLookup (TASK_COLORS !! TaskPriority_value (priority task))
                   (TASK_COLORS !! TaskType_value (type task));
        event_type := type task;
        event_priority := priority task |}) <$> tasks'.

(** ** Vocabulary of the properties *)

(** The tasks [scheduleTask] hands to [scheduleFixedTask]. *)
Definition fixedWithStart (task : Task) : Prop :=
  type task = FIXED ∧ is_Some (startTime task).

(** The tasks placed through the slot grid. *)
Definition slotBased (task : Task) : Prop := ¬ fixedWithStart task.

(** One placed record ends no later than the other starts. *)
Definition endsBefore (a b : Task) : Prop :=
  ∃ e s, endTime a = Some e ∧ startTime b = Some s ∧ e ≤ s.

Definition separated (a b : Task) : Prop := endsBefore a b ∨ endsBefore b a.

(** The instants of the half-open interval [[startTime, endTime)]. *)
Definition occupies (a : Task) (x : Date) : Prop :=
  ∃ s e, startTime a = Some s ∧ endTime a = Some e ∧ s ≤ x < e.

(** A placed record keeps clear of a slot: it ends before the slot starts or
    starts after the slot ends. *)
Definition clearOf (placed : Task) (slot : TimeSlot) : Prop :=
  ∃ s e, startTime placed = Some s ∧ endTime placed = Some e
         ∧ (e ≤ slot_start slot ∨ slot_end slot ≤ s).

(** In a trace of (task, placed record) pairs, any two records that come
    from slot-based placements are separated. *)
Definition pairwiseSeparated (trace : list (Task * Task)) : Prop :=
  ∀ i j a b, i ≠ j → trace !! i = Some a → trace !! j = Some b →
    slotBased a.1 → slotBased b.1 → separated a.2 b.2.

(** The k-th slot of the grid that starts at [start']. *)
Definition slotAt (start' : Date) (k : nat) : TimeSlot :=
  {| slot_start := start' + Z.of_nat k * 1800000;
     slot_end := start' + (Z.of_nat k + 1) * 1800000;
     available := true |}.

(** The number of slots between [c] and [e]: [(e - c) / 30min], rounded up. *)
Definition slotCount (c e : Date) : nat := Z.to_nat ((e - c + 1799999) / 1800000).

(** A state of the grid during a run: the generated slots, some of them
    marked unavailable. *)
Definition sameBounds (a b : TimeSlot) : Prop :=
  slot_start a = slot_start b ∧ slot_end a = slot_end b.

Definition gridState (this : TaskScheduler) (slots : list TimeSlot) : Prop :=
  Forall2 sameBounds slots (generateTimeSlots this).

(** What the two slot-based strategies look for in a slot. *)
Definition fits (task : Task) (slot : TimeSlot) : Prop :=
  duration task * 60000 ≤ slot_end slot - slot_start slot.

Definition within (range : TimeRange) (slot : TimeSlot) : Prop :=
  range_start range ≤ slot_start slot ∧ slot_end slot ≤ range_end range.

Definition preferredCandidate (task : Task) (range : TimeRange) (slot : TimeSlot) : Prop :=
  within range slot ∧ available slot = true ∧ fits task slot.

Definition flexibleCandidate (task : Task) (slot : TimeSlot) : Prop :=
  available slot = true ∧ fits task slot.

(** [slot] sits at index [k] and no slot before it satisfies [P]. *)
Definition firstAt (P : TimeSlot → Prop) (slots : list TimeSlot) (k : nat) (slot : TimeSlot)
  : Prop :=
  slots !! k = Some slot ∧ P slot ∧
  ∀ j slot', slots !! j = Some slot' → (j < k)%nat → ¬ P slot'.

Definition unavailable (slot : TimeSlot) : TimeSlot :=
  {| slot_start := slot_start slot; slot_end := slot_end slot; available := false |}.

(** The record placed into [slot]. *)
Definition placedIn (task : Task) (slot : TimeSlot) : Task :=
  with_times task (slot_start slot) (slot_start slot + duration task * 60000).

(** Descending rank, the order the comparator asks for. *)
Definition rankDescending (l : list Task) : Prop :=
  Sorted (λ a b, rank b ≤ rank a) l.

(** The invariant of the loop of [autoSchedule]: the grid is a state of the
    generated grid, the slot-based records placed so far are pairwise
    separated, and each of them keeps clear of every slot that is still
    available. *)
Definition traceInv (this : TaskScheduler) (slots : list TimeSlot)
    (trace : list (Task * Task)) : Prop :=
  gridState this slots
  ∧ pairwiseSeparated trace
  ∧ ∀ a slot, a ∈ trace → slotBased a.1 → slot ∈ slots → available slot = true →
      clearOf a.2 slot.

(** A placed record and the task it was made from agree on everything but
    the two times, which the record always has; a task that came with its
    own [startTime] and went through fixed placement keeps it. *)
Definition placedFrom (task placed : Task) : Prop :=
  task_id placed = task_id task ∧ name placed = name task
  ∧ type placed = type task ∧ priority placed = priority task
  ∧ duration placed = duration task
  ∧ preferredTimeRange placed = preferredTimeRange task
  ∧ frequency placed = frequency task
  ∧ createdAt placed = createdAt task ∧ updatedAt placed = updatedAt task
  ∧ is_Some (startTime placed) ∧ is_Some (endTime placed)
  ∧ (fixedWithStart task → startTime placed = startTime task).

(** A Fixed task that [scheduleFixedTask] rejects. *)
Definition outsideWorkday (this : TaskScheduler) (task : Task) : Prop :=
  type task = FIXED
  ∧ ∃ s, startTime task = Some s ∧ ¬ workdayStart this ≤ s ≤ workdayEnd this.

(** The slots of a grid that are still available. *)
Definition availableSlots (slots : list TimeSlot) : list TimeSlot :=
  filter (λ slot, available slot = true) slots.

(** The entries of a trace that come from slot-based placements. *)
Definition slotEntries (trace : list (Task * Task)) : list (Task * Task) :=
  filter (λ entry, slotBased entry.1) trace.

(** The same task with another priority. *)
Definition withPriority (p : TaskPriority) (task : Task) : Task :=
  {| task_id := task_id task; name := name task; type := type task;
     priority := p; duration := duration task;
     startTime := startTime task; endTime := endTime task;
     preferredTimeRange := preferredTimeRange task;
     frequency := frequency task; createdAt := createdAt task;
     updatedAt := updatedAt task |}.

(** The outcome of a placement, with the priority of the placed record
    replaced. *)
Definition outcomeWithPriority {S : Type} (p : TaskPriority)
    (x : Result (option Task * S) * World) : Result (option Task * S) * World :=
  match x with
  | (Returned (o, s), w) => (Returned (withPriority p <$> o, s), w)
  | (Thrown message, w) => (Thrown message, w)
  end.

(** What the form data must hold for [handleSubmit] to save the task. *)
Definition nameGiven (trim : string → string) (formData : PartialTask) : Prop :=
  match partial_name formData with
  | Absent => True
  | Holds None => False
  | Holds (Some n) => n ≠ "" ∧ trim n ≠ ""
  end.

Definition durationGiven (formData : PartialTask) : Prop :=
  match partial_duration formData with
  | Holds (Some d) => 0 < d
  | _ => True
  end.

Definition startGiven (formData : PartialTask) : Prop :=
  partial_type formData = Holds (Some FIXED) →
  ∃ s, read (partial_startTime formData) = Some s.

(** The colour of a priority in [TASK_COLORS]. *)
Definition priorityColor (p : TaskPriority) : string :=
  match p with
  | HIGH => "#FF6B6B"
  | MEDIUM => "#4ECDC4"
  | LOW => "#A8DADC"
  end.

(** ** Concrete inputs *)

Definition mkTask (i : string) (k : TaskType) (p : TaskPriority) (d : Z)
    (s : option Date) (r : option TimeRange) : Task :=
  {| task_id := i; name := i; type := k; priority := p; duration := d;
     startTime := s; endTime := None; preferredTimeRange := r; frequency := None;
     createdAt := 0; updatedAt := 0 |}.

(** Times of day on the day that starts at time value [0]. *)
Definition at_ (h m : Z) : Date := h * msPerHour + m * msPerMinute.

(** A clock that reads 15:00 and advances one millisecond per reading. *)
Definition afternoon (k : nat) : Date := at_ 15 0 + Z.of_nat k.

Definition theArray : loc := 1%positive.

Definition worldWith (l : list Task) : World :=
  {| arrays := {[ theArray := l ]}; clockReads := 0 |}.

(** The scheduler [new TaskScheduler(tasks)] builds under [afternoon]. *)
Definition today : TaskScheduler :=
  {| tasks := theArray; workdayStart := at_ 8 0; workdayEnd := at_ 20 0 |}.

Definition flexibleHigh : Task := mkTask "report" FLEXIBLE HIGH 30 None None.
Definition routineLow : Task := mkTask "backup" ROUTINE LOW 30 None None.
Definition fixedAtNine : Task := mkTask "standup" FIXED MEDIUM 30 (Some (at_ 9 0)) None.
Definition fixedTooEarly : Task := mkTask "early" FIXED MEDIUM 30 (Some (at_ 7 30)) None.
Definition fixedNoStart : Task := mkTask "floating" FIXED MEDIUM 30 None None.
Definition zeroMinutes : Task := mkTask "nothing" FLEXIBLE MEDIUM 0 None None.
Definition lateMorning : TimeRange := {| range_start := at_ 10 0; range_end := at_ 11 0 |}.
Definition preferred : Task := mkTask "review" FLEXIBLE MEDIUM 30 None (Some lateMorning).

Definition flexibleA : Task := mkTask "first" FLEXIBLE LOW 30 None None.

(** A day with every kind of slot-based task. *)
Definition busyDay : list Task :=
  [flexibleHigh; routineLow; preferred; zeroMinutes; fixedNoStart].

(** A 90-minute task that prefers 10:00-11:00. *)
Definition workshop : Task := mkTask "workshop" FLEXIBLE MEDIUM 90 None (Some lateMorning).

(** The form as it opens: no key is set. *)
Definition emptyForm : PartialTask :=
  {| partial_id := Absent; partial_name := Absent; partial_type := Absent;
     partial_priority := Absent; partial_duration := Absent;
     partial_startTime := Absent; partial_endTime := Absent;
     partial_preferredTimeRange := Absent; partial_frequency := Absent;
     partial_createdAt := Absent; partial_updatedAt := Absent |}.

(** [new TaskScheduler(tasks).autoSchedule()] on an array holding [l]. *)
Definition run (wallClock : nat → Date) (l : list Task) : Result (list Task) * World :=
  (this ← constructor wallClock theArray; autoSchedule wallClock this) (worldWith l).

(** * Properties *)

Ltac unfold_monad := unfold mbind, mret, M_bind, M_ret, throw in *.

(** ** The ranking and the sort *)

Lemma rank_by_type (a : Task) :
  rank a = match type a with FIXED => 4 | ROUTINE => 2 | FLEXIBLE => 1 end.
Proof. unfold rank. destruct (type a); vm_compute; reflexivity. Qed.

Lemma rank_ignores_priority (a b : Task) : type a = type b → rank a = rank b.
Proof. intros H. rewrite !rank_by_type, H. reflexivity. Qed.

Section Sort.
Context {A : Type} (cmp : A → A → Z).

Lemma sortInsert_perm (x : A) (l : list A) : sortInsert cmp x l ≡ₚ x :: l.
Proof.
  induction l as [|y l IH]; simpl; [done|].
  destruct (0 <? cmp x y); [|done].
  rewrite IH. apply Permutation_swap.
Qed.

Lemma sort_perm (l : list A) : sort cmp l ≡ₚ l.
Proof.
  induction l as [|x l IH]; simpl; [done|].
  rewrite sortInsert_perm. by f_equiv.
Qed.

Lemma sort_elem_of (x : A) (l : list A) : x ∈ sort cmp l ↔ x ∈ l.
Proof. by rewrite sort_perm. Qed.

End Sort.

Lemma sortInsert_hd (y x : Task) (l : list Task) :
  rank x ≤ rank y →
  HdRel (λ a b, rank b ≤ rank a) y l →
  HdRel (λ a b, rank b ≤ rank a) y (sortInsert compareTasks x l).
Proof.
  intros Hx Hl. destruct l as [|z l]; simpl; [by constructor|].
  destruct (0 <? compareTasks x z); constructor; [|done].
  by inversion Hl.
Qed.

Lemma sortInsert_sorted (x : Task) (l : list Task) :
  rankDescending l → rankDescending (sortInsert compareTasks x l).
Proof.
  unfold rankDescending. induction 1 as [|y l Hs IH Hd]; simpl.
  - repeat constructor.
  - unfold compareTasks at 1. destruct (Z.ltb_spec 0 (rank y - rank x)).
    + constructor; [done|]. apply sortInsert_hd; [lia | done].
    + repeat constructor; [done | done | lia].
Qed.

Lemma sort_sorted (l : list Task) : rankDescending (sort compareTasks l).
Proof.
  induction l as [|x l IH]; simpl; [constructor|]. by apply sortInsert_sorted.
Qed.

Lemma sort_fixpoint_sorted (l : list Task) : sort compareTasks l = l → rankDescending l.
Proof. intros H. rewrite <- H. apply sort_sorted. Qed.

(** Stability: the tasks of one rank keep the order they had. *)
Lemma sortInsert_stable (r : Z) (x : Task) (l : list Task) :
  filter (λ a, rank a = r) (sortInsert compareTasks x l) = filter (λ a, rank a = r) (x :: l).
Proof.
  induction l as [|y l IH]; simpl; [done|].
  unfold compareTasks at 1. destruct (Z.ltb_spec 0 (rank y - rank x)); [|done].
  rewrite (filter_cons _ y), IH, !filter_cons.
  repeat case_decide; try done; lia.
Qed.

Lemma sort_stable (r : Z) (l : list Task) :
  filter (λ a, rank a = r) (sort compareTasks l) = filter (λ a, rank a = r) l.
Proof.
  induction l as [|x l IH]; simpl; [done|].
  rewrite sortInsert_stable, !filter_cons, IH. done.
Qed.

(** The result does not depend on the sorting algorithm: a list in
    descending rank order is determined by its tasks of each rank, in their
    order, so every stable sort returns what [sort] returns. *)
Lemma rankDescending_head (x : Task) (l : list Task) :
  rankDescending (x :: l) → ∀ y, y ∈ l → rank y ≤ rank x.
Proof.
  intros Hs%Sorted_StronglySorted; [|intros a b c ? ?; lia].
  apply StronglySorted_inv in Hs as [_ Hall].
  intros y Hy. by apply (proj1 (Forall_forall _ _) Hall).
Qed.

Lemma rankDescending_heads (x y : Task) (l1 l2 : list Task) :
  rankDescending (y :: l2) →
  filter (λ a, rank a = rank x) (x :: l1) = filter (λ a, rank a = rank x) (y :: l2) →
  rank x ≤ rank y.
Proof.
  intros Hs Hf. rewrite filter_cons_True in Hf by done.
  assert (x ∈ filter (λ a, rank a = rank x) (y :: l2)) as Hin by (rewrite <- Hf; by left).
  apply list_elem_of_filter in Hin as [_ [->|Hin]%elem_of_cons]; [lia|].
  by apply (rankDescending_head y l2).
Qed.

Lemma stable_sort_unique (l1 : list Task) :
  ∀ l2, rankDescending l1 → rankDescending l2 →
    (∀ r, filter (λ a, rank a = r) l1 = filter (λ a, rank a = r) l2) →
    l1 = l2.
Proof.
  induction l1 as [|x l1 IH]; intros [|y l2] Hs1 Hs2 Hf; [done | | |].
  - specialize (Hf (rank y)). by rewrite filter_cons_True in Hf.
  - specialize (Hf (rank x)). by rewrite filter_cons_True in Hf.
  - assert (rank x = rank y) as Hxy.
    { apply Z.le_antisymm.
      - by apply (rankDescending_heads x y l1 l2).
      - by apply (rankDescending_heads y x l2 l1). }
    pose proof (Hf (rank x)) as Hx.
    rewrite filter_cons_True, (filter_cons_True _ y) in Hx by done.
    injection Hx as <- Hx. f_equal.
    apply IH; [by apply Sorted_inv in Hs1 as [? _] | by apply Sorted_inv in Hs2 as [? _] |].
    intros r. destruct (decide (rank x = r)) as [<-|Hne]; [done|].
    specialize (Hf r). by rewrite !filter_cons_False in Hf.
Qed.

Lemma sort_is_the_stable_sort (l l' : list Task) :
  rankDescending l' →
  (∀ r, filter (λ a, rank a = r) l' = filter (λ a, rank a = r) l) →
  l' = sort compareTasks l.
Proof.
  intros Hs Hf. apply stable_sort_unique; [done | apply sort_sorted |].
  intros r. by rewrite sort_stable.
Qed.

(** ** What a run does to the world *)

Section World.
Context (wallClock : nat → Date).

Lemma prioritizeTasks_run (this : TaskScheduler) (w : World) :
  prioritizeTasks this w =
    (Returned (tasks this),
     {| arrays := <[tasks this := sort compareTasks (arrays w !!! tasks this)]> (arrays w);
        clockReads := clockReads w |}).
Proof. reflexivity. Qed.

Lemma calculateEndTime_from (task : Task) (s : Date) (w : World) :
  calculateEndTime wallClock task (Some s) w = (Returned (s + duration task * 60000), w).
Proof. reflexivity. Qed.

Lemma calculateEndTime_now (task : Task) (w : World) :
  calculateEndTime wallClock task None w =
    (Returned (wallClock (clockReads w) + duration task * 60000),
     {| arrays := arrays w; clockReads := S (clockReads w) |}).
Proof. reflexivity. Qed.

Lemma scheduleFixedTask_arrays this task w r w' :
  scheduleFixedTask wallClock this task w = (r, w') → arrays w' = arrays w.
Proof.
  unfold scheduleFixedTask. destruct (startTime task) as [s|].
  - destruct (isWithinWorkday this s); unfold_monad; simpl; intros [= _ <-]; done.
  - unfold_monad. by intros [= _ <-].
Qed.

Lemma scheduleTaskWithPreference_world task slots w :
  ∃ r, scheduleTaskWithPreference wallClock task slots w = (Returned r, w).
Proof.
  unfold scheduleTaskWithPreference. destruct (preferredTimeRange task); [|by eexists].
  case_bool_decide; [|by eexists].
  destruct (findSlot _ _ _); by eexists.
Qed.

Lemma scheduleFlexibleTask_world task slots w :
  ∃ r, scheduleFlexibleTask wallClock task slots w = (Returned r, w).
Proof.
  unfold scheduleFlexibleTask. destruct (filterSlots _ _); by eexists.
Qed.

Lemma scheduleTask_arrays this task slots w r w' :
  scheduleTask wallClock this task slots w = (r, w') → arrays w' = arrays w.
Proof.
  unfold scheduleTask. destruct (_ && _).
  - unfold_monad.
    destruct (scheduleFixedTask wallClock this task w) as [[t|e] w1] eqn:E;
      intros [= _ <-]; by eapply scheduleFixedTask_arrays.
  - case_bool_decide.
    + destruct (scheduleTaskWithPreference_world task slots w) as [r0 ->]. by intros [= _ <-].
    + destruct (scheduleFlexibleTask_world task slots w) as [r0 ->]. by intros [= _ <-].
Qed.

Lemma scheduleLoop_arrays this ts slots acc w r w' :
  scheduleLoop wallClock this ts slots acc w = (r, w') → arrays w' = arrays w.
Proof.
  revert slots acc w. induction ts as [|t ts IH]; intros slots acc w; simpl.
  - unfold_monad. by intros [= _ <-].
  - unfold mbind, M_bind.
    destruct (scheduleTask wallClock this t slots w) as [[[o slots']|e] w1] eqn:E.
    + apply scheduleTask_arrays in E. simpl.
      destruct o; intros H; apply IH in H; congruence.
    + apply scheduleTask_arrays in E. by intros [= _ <-].
Qed.

Lemma autoSchedule_run this w :
  autoSchedule wallClock this w =
    scheduleLoop wallClock this (sort compareTasks (arrays w !!! tasks this))
      (generateTimeSlots this) []
      {| arrays := <[tasks this := sort compareTasks (arrays w !!! tasks this)]> (arrays w);
         clockReads := clockReads w |}.
Proof.
  unfold autoSchedule, mbind, M_bind. rewrite prioritizeTasks_run.
  unfold readArray. simpl. by rewrite lookup_total_insert_eq.
Qed.

End World.

(** ** The caller's array (C2, C9) *)

(** C2 (the code departs from the claim): the claim puts every
    High-priority task before every Routine task, as the comment above the
    ranking table does.  On the array [[flexibleHigh; routineLow]] the sort
    moves the Routine task in front of the High-priority one: the table is
    read by [type] first, every [type] has an entry, and the [priority]
    lookup is never reached, so the High-priority task gets the rank of its
    type, 1, not 3. *)
Theorem prioritizeTasks_puts_routine_before_high :
  arrays (prioritizeTasks today (worldWith [flexibleHigh; routineLow])).2 !!! theArray
    = [routineLow; flexibleHigh]
  ∧ priority flexibleHigh = HIGH ∧ type routineLow = ROUTINE
  ∧ rank flexibleHigh = 1 ∧ rank routineLow = 2.
Proof. vm_compute. done. Qed.

(** Whatever the run returns or throws, the array the caller passed to the
    constructor holds, afterwards, the stable sort of what it held before;
    the sort returns the caller's own reference, and no other array is
    touched. *)
Lemma autoSchedule_array_after
    (wallClock : nat → Date) (this : TaskScheduler) (w : World) :
  let before := arrays w !!! tasks this in
  let after := arrays (autoSchedule wallClock this w).2 !!! tasks this in
  after = sort compareTasks before
  ∧ after ≡ₚ before
  ∧ rankDescending after
  ∧ (¬ rankDescending before → after ≠ before)
  ∧ (prioritizeTasks this w).1 = Returned (tasks this)
  ∧ ∀ l, l ≠ tasks this → arrays (autoSchedule wallClock this w).2 !! l = arrays w !! l.
Proof.
  intros before after.
  assert (arrays (autoSchedule wallClock this w).2
          = <[tasks this := sort compareTasks before]> (arrays w)) as Harr.
  { rewrite autoSchedule_run.
    destruct (scheduleLoop _ _ _ _ _ _) as [r w'] eqn:E.
    by apply scheduleLoop_arrays in E. }
  assert (after = sort compareTasks before) as Hafter.
  { subst after. by rewrite Harr, lookup_total_insert_eq. }
  split_and!.
  - done.
  - rewrite Hafter. apply sort_perm.
  - rewrite Hafter. apply sort_sorted.
  - intros Hns Heq. apply Hns, sort_fixpoint_sorted. congruence.
  - done.
  - intros l Hl. by rewrite Harr, lookup_insert_ne.
Qed.

(** ** The slot grid (C6) *)

Lemma generateLoop_step (e c : Date) (acc : list TimeSlot) :
  generateLoop e c acc =
    if decide (c < e)
    then generateLoop e (c + 1800000)
           (acc ++ [{| slot_start := c; slot_end := c + 1800000; available := true |}])
    else acc.
Proof.
  rewrite generateLoop_equation_1.
  destruct (decide (c < e)); [rewrite generateLoop_clause_1_equation_1|]; reflexivity.
Qed.

Lemma slotCount_done (c e : Date) : ¬ c < e → slotCount c e = 0%nat.
Proof.
  intros H. unfold slotCount, Date in *.
  assert ((e - c + 1799999) / 1800000 ≤ 0); [|lia].
  apply Z.lt_succ_r, Z.div_lt_upper_bound; lia.
Qed.

Lemma slotCount_step (c e : Date) : c < e → slotCount c e = S (slotCount (c + 1800000) e).
Proof.
  intros H. unfold slotCount, Date in *.
  assert (e - c + 1799999 = (e - (c + 1800000) + 1799999) + 1 * 1800000) as -> by lia.
  rewrite Z.div_add by lia. rewrite Z2Nat.inj_add; [lia | apply Z.div_pos; lia | lia].
Qed.

Lemma generateLoop_closed (e : Date) (n : nat) :
  ∀ c acc, slotCount c e = n →
    generateLoop e c acc = acc ++ (slotAt c <$> seq 0 n).
Proof.
  induction n as [|n IH]; intros c acc Hn; rewrite generateLoop_step.
  - destruct (decide (c < e)) as [Hlt|_]; [|by rewrite app_nil_r].
    rewrite (slotCount_step _ _ Hlt) in Hn. done.
  - destruct (decide (c < e)) as [Hlt|Hge]; [|by rewrite (slotCount_done _ _ Hge) in Hn].
    rewrite (slotCount_step _ _ Hlt) in Hn. injection Hn as Hn.
    rewrite (IH _ _ Hn), <- app_assoc. f_equal. simpl. f_equal.
    + unfold slotAt. f_equal; unfold Date in *; lia.
    + rewrite <- seq_shift, <- list_fmap_compose. apply list_fmap_ext.
      intros _ k _. unfold slotAt; simpl. f_equal; unfold Date in *; lia.
Qed.

Lemma generateTimeSlots_closed (this : TaskScheduler) :
  generateTimeSlots this =
    slotAt (workdayStart this) <$> seq 0 (slotCount (workdayStart this) (workdayEnd this)).
Proof. unfold generateTimeSlots. by rewrite (generateLoop_closed _ _ _ [] eq_refl). Qed.

Lemma generateTimeSlots_lookup (this : TaskScheduler) (k : nat) (slot : TimeSlot) :
  generateTimeSlots this !! k = Some slot ↔
  (k < slotCount (workdayStart this) (workdayEnd this))%nat ∧ slot = slotAt (workdayStart this) k.
Proof.
  rewrite generateTimeSlots_closed, list_lookup_fmap. split.
  - destruct (seq _ _ !! k) as [k'|] eqn:E; [|done].
    apply lookup_seq in E as [-> ?]. simpl. intros [= <-]. done.
  - intros [Hk ->]. by rewrite (lookup_seq_lt _ _ _ Hk).
Qed.

Lemma generateTimeSlots_length (this : TaskScheduler) :
  length (generateTimeSlots this) = slotCount (workdayStart this) (workdayEnd this).
Proof. by rewrite generateTimeSlots_closed, length_fmap, length_seq. Qed.

Lemma slotCount_bounds (c e : Date) :
  c ≤ e →
  (Z.of_nat (slotCount c e) - 1) * 1800000 < e - c ≤ Z.of_nat (slotCount c e) * 1800000.
Proof.
  intros H. unfold slotCount, Date in *.
  rewrite Z2Nat.id by (apply Z.div_pos; lia).
  pose proof (Z.div_mod (e - c + 1799999) 1800000 ltac:(lia)) as Hdm.
  pose proof (Z.mod_pos_bound (e - c + 1799999) 1800000 ltac:(lia)) as Hm.
  lia.
Qed.

(** C6: over a window [workdayStart ≤ workdayEnd] the generated grid is the
    sequence of 30-minute slots that starts at [workdayStart]: slot [k]
    starts [k] half-hours after [workdayStart], ends 30 minutes later and is
    available; each slot starts where the one before it ends, and earlier
    slots end no later than later ones start; the number of slots is
    [(workdayEnd - workdayStart) / 30min] rounded up; when the window is not
    a multiple of 30 minutes the last slot still lasts 30 minutes and ends
    after [workdayEnd]; and two schedulers with the same bounds get the same
    grid. *)
Theorem generateTimeSlots_tiles_the_workday (this : TaskScheduler) :
  workdayStart this ≤ workdayEnd this →
  let slots := generateTimeSlots this in
  let span := workdayEnd this - workdayStart this in
  (∀ k slot, slots !! k = Some slot →
     slot_start slot = workdayStart this + Z.of_nat k * (30 * msPerMinute)
     ∧ slot_end slot = slot_start slot + 30 * msPerMinute
     ∧ available slot = true)
  ∧ (workdayStart this < workdayEnd this →
     ∃ slot, head slots = Some slot ∧ slot_start slot = workdayStart this)
  ∧ (∀ k a b, slots !! k = Some a → slots !! S k = Some b → slot_start b = slot_end a)
  ∧ (∀ j k a b, (j < k)%nat → slots !! j = Some a → slots !! k = Some b →
     slot_end a ≤ slot_start b)
  ∧ Z.of_nat (length slots) = (span + (30 * msPerMinute - 1)) / (30 * msPerMinute)
  ∧ (Z.of_nat (length slots) - 1) * (30 * msPerMinute) < span
      ≤ Z.of_nat (length slots) * (30 * msPerMinute)
  ∧ (span mod (30 * msPerMinute) ≠ 0 →
     ∃ slot, last slots = Some slot ∧ slot_start slot < workdayEnd this
             ∧ workdayEnd this < slot_end slot
             ∧ slot_end slot = slot_start slot + 30 * msPerMinute)
  ∧ (∀ this', workdayStart this' = workdayStart this → workdayEnd this' = workdayEnd this →
     generateTimeSlots this' = slots).
Proof.
  intros Hwin slots span. subst slots span.
  change (30 * msPerMinute) with 1800000. change (1800000 - 1) with 1799999.
  pose proof (slotCount_bounds _ _ Hwin) as Hb.
  pose proof (generateTimeSlots_length this) as Hlen.
  split_and!.
  - intros k slot [_ ->]%generateTimeSlots_lookup. unfold slotAt, Date in *; simpl. lia.
  - intros Hlt. exists (slotAt (workdayStart this) 0). split.
    + rewrite head_lookup. apply generateTimeSlots_lookup. split; [|done].
      unfold Date in *. lia.
    + unfold slotAt, Date in *; simpl. lia.
  - intros k a b [_ ->]%generateTimeSlots_lookup [_ ->]%generateTimeSlots_lookup.
    unfold slotAt, Date in *; simpl. lia.
  - intros j k a b Hjk [_ ->]%generateTimeSlots_lookup [_ ->]%generateTimeSlots_lookup.
    unfold slotAt, Date in *; simpl. nia.
  - rewrite Hlen. unfold slotCount. rewrite Z2Nat.id; [done|].
    apply Z.div_pos; unfold Date in *; lia.
  - rewrite Hlen. apply Hb.
  - rewrite Hlen. apply Hb.
  - intros Hmod.
    assert (workdayStart this ≠ workdayEnd this) as Hne.
    { intros Heq. apply Hmod. by rewrite Heq, Z.sub_diag. }
    destruct (slotCount (workdayStart this) (workdayEnd this)) as [|n] eqn:En.
    { unfold Date in *. lia. }
    exists (slotAt (workdayStart this) n).
    assert (generateTimeSlots this !! n = Some (slotAt (workdayStart this) n)) as Hn.
    { apply generateTimeSlots_lookup. split; [lia | done]. }
    split_and!.
    + rewrite last_lookup, Hlen. exact Hn.
    + unfold slotAt, Date in *; simpl. lia.
    + unfold slotAt, Date in *; simpl.
      assert (workdayEnd this - workdayStart this ≠ (Z.of_nat n + 1) * 1800000); [|lia].
      intros Heq. apply Hmod. rewrite Heq. apply Z.mod_mul. lia.
    + unfold slotAt, Date in *; simpl. lia.
  - intros this' Hs He. unfold generateTimeSlots. by rewrite Hs, He.
Qed.

(** ** Slot references *)

Lemma firstAt_unique (P : TimeSlot → Prop) slots k k' slot slot' :
  firstAt P slots k slot → firstAt P slots k' slot' → k = k' ∧ slot = slot'.
Proof.
  intros (Hk & HP & Hmin) (Hk' & HP' & Hmin').
  assert (k = k') as ->.
  { destruct (lt_eq_lt_dec k k') as [[Hlt| ->]|Hlt]; [|done|].
    - destruct (Hmin' _ _ Hk Hlt HP).
    - destruct (Hmin _ _ Hk' Hlt HP'). }
  split; congruence.
Qed.

Lemma firstAt_ext (P Q : TimeSlot → Prop) slots k slot :
  (∀ s, P s ↔ Q s) → firstAt P slots k slot → firstAt Q slots k slot.
Proof.
  intros HPQ (Hk & HP & Hmin). split_and!; [done | by apply HPQ |].
  intros j s Hj Hlt HQ. apply (Hmin j s Hj Hlt). by apply HPQ.
Qed.

Lemma firstAt_here (P : TimeSlot → Prop) slot rest :
  P slot → firstAt P (slot :: rest) 0 slot.
Proof. intros HP. split_and!; [done | done | intros; lia]. Qed.

Lemma firstAt_later (P : TimeSlot → Prop) slot rest j slot' :
  ¬ P slot → firstAt P rest j slot' → firstAt P (slot :: rest) (S j) slot'.
Proof.
  intros HnP (Hj & HP & Hmin). split_and!; [done | done |].
  intros [|i] s Hi Hlt; simpl in Hi.
  - by injection Hi as <-.
  - apply (Hmin i s Hi). lia.
Qed.

Lemma firstAt_lookup (P : TimeSlot → Prop) slots k slot :
  firstAt P slots k slot → slots !! k = Some slot ∧ P slot.
Proof. intros (? & ? & _). done. Qed.

Lemma filterFrom_head (p : TimeSlot → bool) (slots : list TimeSlot) :
  ∀ i,
    match filterFrom p i slots with
    | [] => ∀ s, s ∈ slots → p s = false
    | k :: _ => ∃ j s, k = (i + j)%nat ∧ firstAt (λ s, p s = true) slots j s
    end.
Proof.
  induction slots as [|slot rest IH]; intros i; simpl.
  - intros s Hs. by apply elem_of_nil in Hs.
  - destruct (p slot) eqn:Hp.
    + exists 0%nat, slot. split; [lia | by apply firstAt_here].
    + specialize (IH (S i)). destruct (filterFrom p (S i) rest) as [|k ks].
      * intros s [->|Hs]%elem_of_cons; [done | by apply IH].
      * destruct IH as (j & s & -> & Hf). exists (S j), s. split; [lia|].
        apply firstAt_later; [congruence | done].
Qed.

Lemma findSlot_filterFrom (p q : TimeSlot → bool) (slots : list TimeSlot) :
  ∀ pre,
    match findSlot q (pre ++ slots) (filterFrom p (length pre) slots) with
    | None => ∀ s, s ∈ slots → ¬ (p s = true ∧ q s = true)
    | Some k => ∃ j s, k = (length pre + j)%nat
                       ∧ firstAt (λ s, p s = true ∧ q s = true) slots j s
    end.
Proof.
  induction slots as [|slot rest IH]; intros pre; simpl.
  - intros s Hs. by apply elem_of_nil in Hs.
  - specialize (IH (pre ++ [slot])).
    rewrite <- app_assoc, length_app, Nat.add_1_r in IH. simpl in IH.
    destruct (p slot) eqn:Hp; simpl.
    + rewrite lookup_app_r, Nat.sub_diag by lia. simpl.
      destruct (q slot) eqn:Hq.
      * exists 0%nat, slot. split; [lia | by apply firstAt_here].
      * destruct (findSlot q _ _) as [k|].
        -- destruct IH as (j & s & -> & Hf). exists (S j), s. split; [lia|].
           apply firstAt_later; [|done]. intros [_ ?]; congruence.
        -- intros s [->|Hs]%elem_of_cons; [intros [_ ?]; congruence | by apply IH].
    + destruct (findSlot q _ _) as [k|].
      * destruct IH as (j & s & -> & Hf). exists (S j), s. split; [lia|].
        apply firstAt_later; [|done]. intros [? _]; congruence.
      * intros s [->|Hs]%elem_of_cons; [intros [? _]; congruence | by apply IH].
Qed.

Lemma markUnavailable_insert slots k slot :
  slots !! k = Some slot → markUnavailable slots k = <[k := unavailable slot]> slots.
Proof.
  intros Hk. apply list_eq. intros j. unfold markUnavailable.
  destruct (decide (k = j)) as [<-|Hne].
  - rewrite list_lookup_alter_eq, Hk, list_lookup_insert_eq; [done|].
    by eapply lookup_lt_Some.
  - by rewrite list_lookup_alter_ne, list_lookup_insert_ne.
Qed.

Lemma startOf_lookup slots k slot : slots !! k = Some slot → startOf slots k = slot_start slot.
Proof. unfold startOf. by intros ->. Qed.

(** ** The two slot-based strategies *)

Section Strategies.
Context (wallClock : nat → Date).

Lemma scheduleTaskWithPreference_cases task range slots w :
  preferredTimeRange task = Some range →
  (∃ k slot, firstAt (preferredCandidate task range) slots k slot
     ∧ scheduleTaskWithPreference wallClock task slots w
       = (Returned (Some (placedIn task slot), <[k := unavailable slot]> slots), w))
  ∨ ((∀ slot, slot ∈ slots → ¬ preferredCandidate task range slot)
     ∧ scheduleTaskWithPreference wallClock task slots w = (Returned (None, slots), w)).
Proof.
  intros Hr. unfold scheduleTaskWithPreference. rewrite Hr.
  set (p := λ slot : TimeSlot, bool_decide (range_start range ≤ slot_start slot)
                 && bool_decide (slot_end slot ≤ range_end range) && available slot).
  set (q := λ slot : TimeSlot, canFitTask slot task).
  assert (∀ s, p s = true ∧ q s = true ↔ preferredCandidate task range s) as Hpq.
  { intros s. unfold p, q, preferredCandidate, within, fits, canFitTask.
    rewrite !andb_true_iff, !bool_decide_eq_true. unfold msPerMinute. tauto. }
  pose proof (findSlot_filterFrom p q slots []) as Hfind. simpl in Hfind.
  pose proof (filterFrom_head p slots 0) as Hhead.
  unfold filterSlots. case_bool_decide as Hlen.
  - destruct (findSlot q slots (filterFrom p 0 slots)) as [k|].
    + left. destruct Hfind as (j & s & -> & Hf). simpl. exists j, s.
      apply (firstAt_ext _ _ _ _ _ Hpq) in Hf. split; [done|].
      destruct (firstAt_lookup _ _ _ _ Hf) as [Hj _].
      rewrite (startOf_lookup _ _ _ Hj), (markUnavailable_insert _ _ _ Hj).
      reflexivity.
    + right. split; [|done]. intros s Hs Hc. by apply (Hfind s Hs), Hpq.
  - right. split; [|done]. destruct (filterFrom p 0 slots); [|simpl in Hlen; lia].
    intros s Hs Hc. apply Hpq in Hc as [Hc _]. rewrite (Hhead s Hs) in Hc. done.
Qed.

Lemma scheduleFlexibleTask_cases task slots w :
  (∃ k slot, firstAt (flexibleCandidate task) slots k slot
     ∧ scheduleFlexibleTask wallClock task slots w
       = (Returned (Some (placedIn task slot), <[k := unavailable slot]> slots), w))
  ∨ ((∀ slot, slot ∈ slots → ¬ flexibleCandidate task slot)
     ∧ scheduleFlexibleTask wallClock task slots w = (Returned (None, slots), w)).
Proof.
  unfold scheduleFlexibleTask.
  set (p := λ slot : TimeSlot, available slot && canFitTask slot task).
  assert (∀ s, p s = true ↔ flexibleCandidate task s) as Hp.
  { intros s. unfold p, flexibleCandidate, fits, canFitTask.
    rewrite andb_true_iff, bool_decide_eq_true. unfold msPerMinute. tauto. }
  pose proof (filterFrom_head p slots 0) as Hhead. unfold filterSlots.
  destruct (filterFrom p 0 slots) as [|k ks].
  - right. split; [|done]. intros s Hs Hc. apply Hp in Hc. rewrite (Hhead s Hs) in Hc. done.
  - left. destruct Hhead as (j & s & -> & Hf). simpl. exists j, s.
    apply (firstAt_ext _ _ _ _ _ Hp) in Hf. split; [done|].
    destruct (firstAt_lookup _ _ _ _ Hf) as [Hj _].
    rewrite (startOf_lookup _ _ _ Hj), (markUnavailable_insert _ _ _ Hj).
    reflexivity.
Qed.

(** With the first candidate in hand, the result is determined. *)
Lemma scheduleTaskWithPreference_first task range slots k slot w :
  preferredTimeRange task = Some range →
  firstAt (preferredCandidate task range) slots k slot →
  scheduleTaskWithPreference wallClock task slots w
    = (Returned (Some (placedIn task slot), <[k := unavailable slot]> slots), w).
Proof.
  intros Hr Hf.
  destruct (scheduleTaskWithPreference_cases task range slots w Hr)
    as [(k' & s' & Hf' & ->)|[Hnone _]].
  - by destruct (firstAt_unique _ _ _ _ _ _ Hf Hf') as [-> ->].
  - destruct (firstAt_lookup _ _ _ _ Hf) as [Hk Hc].
    destruct (Hnone slot); [by eapply list_elem_of_lookup_2 | done].
Qed.

Lemma scheduleTaskWithPreference_none task range slots w :
  preferredTimeRange task = Some range →
  (∀ slot, slot ∈ slots → ¬ preferredCandidate task range slot) →
  scheduleTaskWithPreference wallClock task slots w = (Returned (None, slots), w).
Proof.
  intros Hr Hnone.
  destruct (scheduleTaskWithPreference_cases task range slots w Hr)
    as [(k' & s' & Hf' & _)|[_ ->]]; [|done].
  destruct (firstAt_lookup _ _ _ _ Hf') as [Hk Hc].
  destruct (Hnone s'); [by eapply list_elem_of_lookup_2 | done].
Qed.

Lemma scheduleFlexibleTask_first task slots k slot w :
  firstAt (flexibleCandidate task) slots k slot →
  scheduleFlexibleTask wallClock task slots w
    = (Returned (Some (placedIn task slot), <[k := unavailable slot]> slots), w).
Proof.
  intros Hf.
  destruct (scheduleFlexibleTask_cases task slots w) as [(k' & s' & Hf' & ->)|[Hnone _]].
  - by destruct (firstAt_unique _ _ _ _ _ _ Hf Hf') as [-> ->].
  - destruct (firstAt_lookup _ _ _ _ Hf) as [Hk Hc].
    destruct (Hnone slot); [by eapply list_elem_of_lookup_2 | done].
Qed.

Lemma scheduleFlexibleTask_none task slots w :
  (∀ slot, slot ∈ slots → ¬ flexibleCandidate task slot) →
  scheduleFlexibleTask wallClock task slots w = (Returned (None, slots), w).
Proof.
  intros Hnone.
  destruct (scheduleFlexibleTask_cases task slots w) as [(k' & s' & Hf' & _)|[_ ->]]; [|done].
  destruct (firstAt_lookup _ _ _ _ Hf') as [Hk Hc].
  destruct (Hnone s'); [by eapply list_elem_of_lookup_2 | done].
Qed.

End Strategies.

(** ** Dispatch *)

Section Dispatch.
Context (wallClock : nat → Date).

Lemma scheduleTask_slotBased this task slots :
  slotBased task →
  scheduleTask wallClock this task slots =
    match preferredTimeRange task with
    | Some _ => scheduleTaskWithPreference wallClock task slots
    | None => scheduleFlexibleTask wallClock task slots
    end.
Proof.
  intros Hs. unfold scheduleTask.
  destruct (bool_decide (type task = FIXED) && bool_decide (is_Some (startTime task))) eqn:E.
  - apply andb_true_iff in E as [?%bool_decide_eq_true ?%bool_decide_eq_true].
    by destruct Hs.
  - destruct (preferredTimeRange task) as [range|]; case_bool_decide as H; done.
Qed.

Lemma scheduleTask_fixed this task slots w :
  fixedWithStart task →
  scheduleTask wallClock this task slots w =
    match scheduleFixedTask wallClock this task w with
    | (Returned placed, w') => (Returned (Some placed, slots), w')
    | (Thrown message, w') => (Thrown message, w')
    end.
Proof.
  intros [Ht Hs]. unfold scheduleTask.
  rewrite (bool_decide_eq_true_2 _ Ht), (bool_decide_eq_true_2 _ Hs). reflexivity.
Qed.

Lemma scheduleFixedTask_inside this task s w :
  startTime task = Some s → workdayStart this ≤ s ≤ workdayEnd this →
  scheduleFixedTask wallClock this task w =
    (Returned (with_endTime task (wallClock (clockReads w) + duration task * 60000)),
     {| arrays := arrays w; clockReads := S (clockReads w) |}).
Proof.
  intros Hs [H1 H2]. unfold scheduleFixedTask, isWithinWorkday. rewrite Hs.
  rewrite (bool_decide_eq_true_2 _ H1), (bool_decide_eq_true_2 _ H2). reflexivity.
Qed.

Lemma scheduleFixedTask_outside this task s w :
  startTime task = Some s → ¬ workdayStart this ≤ s ≤ workdayEnd this →
  scheduleFixedTask wallClock this task w = (Thrown "Fixed task outside of workday", w).
Proof.
  intros Hs Hout. unfold scheduleFixedTask, isWithinWorkday. rewrite Hs.
  destruct (bool_decide (workdayStart this ≤ s) && bool_decide (s ≤ workdayEnd this)) eqn:E;
    [|done].
  apply andb_true_iff in E as [?%bool_decide_eq_true ?%bool_decide_eq_true].
  by destruct Hout.
Qed.

(** The one error a placement can throw. *)
Lemma scheduleTask_throws this task slots w message w' :
  scheduleTask wallClock this task slots w = (Thrown message, w') →
  message = "Fixed task outside of workday".
Proof.
  destruct (decide (fixedWithStart task)) as [Hf|Hs].
  - rewrite (scheduleTask_fixed _ _ _ _ Hf). unfold scheduleFixedTask.
    destruct (startTime task) as [s|]; [|by intros [= <- _]].
    destruct (isWithinWorkday this s); [done | by intros [= <- _]].
  - rewrite (scheduleTask_slotBased _ _ _ Hs). destruct (preferredTimeRange task).
    + by destruct (scheduleTaskWithPreference_world wallClock task slots w) as [r ->].
    + by destruct (scheduleFlexibleTask_world wallClock task slots w) as [r ->].
Qed.

End Dispatch.

(** ** States of the grid *)

Lemma gridState_generated this : gridState this (generateTimeSlots this).
Proof. apply Forall2_same_length_lookup_2; [done|]. intros i x y Hx Hy.
  rewrite Hx in Hy. injection Hy as <-. by split.
Qed.

Lemma gridState_lookup this slots k slot :
  gridState this slots → slots !! k = Some slot →
  slot_start slot = workdayStart this + Z.of_nat k * 1800000
  ∧ slot_end slot = workdayStart this + (Z.of_nat k + 1) * 1800000.
Proof.
  intros Hg Hk. destruct (Forall2_lookup_l _ _ _ _ _ Hg Hk) as (g & Hgk & [Hs He]).
  apply generateTimeSlots_lookup in Hgk as [_ ->]. by rewrite Hs, He.
Qed.

Lemma gridState_mark this slots k slot :
  gridState this slots → slots !! k = Some slot →
  gridState this (<[k := unavailable slot]> slots).
Proof.
  intros Hg Hk. unfold gridState.
  rewrite <- (list_insert_id (generateTimeSlots this) k
               (slotAt (workdayStart this) k)).
  - apply Forall2_insert; [done|].
    destruct (gridState_lookup _ _ _ _ Hg Hk) as [Hs He].
    split; simpl; [rewrite Hs | rewrite He]; done.
  - destruct (Forall2_lookup_l _ _ _ _ _ Hg Hk) as (g & Hgk & _).
    by pose proof Hgk as [_ ->]%generateTimeSlots_lookup.
Qed.



(** ** A dropped task leaves no trace in the loop *)



(** ** Preferred-window placement (C7) *)


(** ** Flexible placement (C8) *)



Lemma constructor_run wallClock (ref : loc) (w : World) :
  constructor wallClock ref w =
    (Returned {| tasks := ref;
                 workdayStart := setHours (wallClock (clockReads w)) 8;
                 workdayEnd := setHours (wallClock (S (clockReads w))) 20 |},
     {| arrays := arrays w; clockReads := S (S (clockReads w)) |}).
Proof. reflexivity. Qed.



(** ** Fixed tasks (C1, C3, C10) *)

Lemma constructor_afternoon (l : list Task) :
  (constructor afternoon theArray (worldWith l)).1 = Returned today.
Proof. vm_compute. reflexivity. Qed.

(** C1 (the code departs from the claim): a Fixed task whose [startTime],
    09:00, lies inside the workday is returned with [startTime] unchanged,
    but [scheduleFixedTask] calls [calculateEndTime(task)] without a start,
    so the end is counted from the wall clock: constructed and run at 15:00,
    the engine returns [endTime] 15:30 (and 2 ms, the third clock reading),
    not 09:30.  The two slot-based strategies pass the start
    ([scheduleTaskWithPreference_first], [scheduleFlexibleTask_first]);
    [scheduleFixedTask_inside] gives the general form. *)
Theorem fixed_task_end_is_counted_from_the_clock :
  (run afternoon [fixedAtNine]).1
    = Returned [with_endTime fixedAtNine (at_ 15 30 + 2)]
  ∧ type fixedAtNine = FIXED
  ∧ startTime fixedAtNine = Some (at_ 9 0)
  ∧ isWithinWorkday today (at_ 9 0) = true
  ∧ addMinutes (at_ 9 0) (duration fixedAtNine) = at_ 9 30
  ∧ at_ 15 30 + 2 ≠ at_ 9 30.
Proof. vm_compute. split_and!; done. Qed.

Lemma scheduleLoop_throws wallClock this task s ts :
  task ∈ ts → type task = FIXED → startTime task = Some s →
  ¬ workdayStart this ≤ s ≤ workdayEnd this →
  ∀ slots acc w, ∃ w',
    scheduleLoop wallClock this ts slots acc w = (Thrown "Fixed task outside of workday", w').
Proof.
  intros Hin Ht Hs Hout.
  assert (fixedWithStart task) as Hf by (split; [done | by eexists]).
  induction ts as [|t ts IH]; intros slots acc w; [by apply elem_of_nil in Hin|].
  simpl. unfold mbind, M_bind.
  destruct (scheduleTask wallClock this t slots w) as [[[o slots']|e] w1] eqn:E.
  - assert (task ∈ ts) as Hin'.
    { apply elem_of_cons in Hin as [<-|?]; [|done].
      rewrite (scheduleTask_fixed _ _ _ _ _ Hf) in E.
      by rewrite (scheduleFixedTask_outside _ _ _ _ _ Hs Hout) in E. }
    simpl. destruct o; by apply IH.
  - apply scheduleTask_throws in E as ->. by eexists.
Qed.

(** C3: when the array holds a Fixed task whose [startTime] is not within
    [workdayStart ≤ startTime ≤ workdayEnd] (both bounds included),
    [autoSchedule] throws 'Fixed task outside of workday': nothing catches
    the error on the way, and the outcome carries no list, whatever the loop
    had accumulated before it reached the task. *)
Theorem fixed_task_outside_workday_aborts_the_run
    (wallClock : nat → Date) (this : TaskScheduler) (w : World) (task : Task) (s : Date) :
  task ∈ arrays w !!! tasks this →
  type task = FIXED → startTime task = Some s →
  ¬ workdayStart this ≤ s ≤ workdayEnd this →
  (∃ w', autoSchedule wallClock this w = (Thrown "Fixed task outside of workday", w'))
  ∧ (∀ earlier later slots scheduledTasks w0, ∃ w',
       scheduleLoop wallClock this (earlier ++ task :: later) slots scheduledTasks w0
         = (Thrown "Fixed task outside of workday", w'))
  ∧ (∀ time, isWithinWorkday this time = true
             ↔ workdayStart this ≤ time ≤ workdayEnd this).
Proof.
  intros Hin Ht Hs Hout. split_and!.
  - rewrite autoSchedule_run.
    apply (scheduleLoop_throws wallClock this task s); try done.
    by apply sort_elem_of.
  - intros earlier later slots acc w0.
    apply (scheduleLoop_throws wallClock this task s); try done.
    apply elem_of_app. right. by left.
  - intros time. unfold isWithinWorkday.
    by rewrite andb_true_iff, !bool_decide_eq_true.
Qed.

(** C10: a Fixed task without [startTime] never reaches [scheduleFixedTask]:
    [scheduleTask] hands it to preferred-window placement when it has a
    preferred window and to flexible placement otherwise, the call returns
    (it cannot throw), and what it returns is either no placement, with the
    grid unchanged, or the task placed at the start of a slot that was
    available, which is then marked unavailable. *)
Theorem fixed_task_without_start_goes_to_the_grid
    (wallClock : nat → Date) (this : TaskScheduler)
    (task : Task) (slots : list TimeSlot) (w : World) :
  type task = FIXED → startTime task = None →
  scheduleTask wallClock this task slots
    = match preferredTimeRange task with
      | Some _ => scheduleTaskWithPreference wallClock task slots
      | None => scheduleFlexibleTask wallClock task slots
      end
  ∧ ∃ r, scheduleTask wallClock this task slots w = (Returned r, w)
         ∧ (r = (None, slots)
            ∨ ∃ k slot, slots !! k = Some slot ∧ available slot = true
                        ∧ r = (Some (with_times task (slot_start slot)
                                       (slot_start slot + duration task * msPerMinute)),
                               <[k := unavailable slot]> slots)).
Proof.
  intros Ht Hs.
  assert (slotBased task) as Hsb by (intros [_ [? ?]]; congruence).
  split; [by apply scheduleTask_slotBased|].
  rewrite (scheduleTask_slotBased _ _ _ _ Hsb).
  destruct (preferredTimeRange task) as [range|] eqn:Hr.
  - destruct (scheduleTaskWithPreference_cases wallClock task range slots w Hr)
      as [(k & slot & Hf & ->)|[_ ->]]; eexists; (split; [done|]); [right | by left].
    destruct Hf as (Hk & (_ & Ha & _) & _). by exists k, slot.
  - destruct (scheduleFlexibleTask_cases wallClock task slots w)
      as [(k & slot & Hf & ->)|[_ ->]]; eexists; (split; [done|]); [right | by left].
    destruct Hf as (Hk & (Ha & _) & _). by exists k, slot.
Qed.

(** ** The fit check and durations that are not positive (C4) *)

(** C4, as the claim states it, fails: the zero-minute task fits the first
    slot of the grid. *)
Lemma zero_duration_fits_a_slot :
  ¬ (∀ this task slot,
       duration task ≤ 0 → slot ∈ generateTimeSlots this → canFitTask slot task = false).
Proof.
  intros H.
  specialize (H today zeroMinutes (slotAt (at_ 8 0) 0)).
  assert (canFitTask (slotAt (at_ 8 0) 0) zeroMinutes = true) as Hfit by (vm_compute; done).
  rewrite H in Hfit; [done | simpl; lia |].
  apply list_elem_of_lookup_2 with 0%nat. by vm_compute.
Qed.

(** C4, amended: a task whose duration is zero or negative fits every slot
    of the grid, the engine having no guard on the duration, and flexible
    placement puts it at the start of the first slot that is still
    available. *)
Theorem nonpositive_duration_fits_every_slot
    (wallClock : nat → Date) (this : TaskScheduler)
    (task : Task) (slots : list TimeSlot) (w : World) :
  duration task ≤ 0 → gridState this slots →
  (∀ slot, slot ∈ slots → canFitTask slot task = true)
  ∧ (∀ k slot, firstAt (λ s, available s = true) slots k slot →
       scheduleFlexibleTask wallClock task slots w
         = (Returned (Some (with_times task (slot_start slot)
                              (slot_start slot + duration task * msPerMinute)),
                      <[k := unavailable slot]> slots), w)).
Proof.
  intros Hd Hg.
  assert (∀ slot, slot ∈ slots → fits task slot) as Hfits.
  { intros slot [k Hk]%list_elem_of_lookup_1.
    destruct (gridState_lookup _ _ _ _ Hg Hk) as [Hs He].
    unfold fits. rewrite Hs, He. unfold Date in *. lia. }
  split.
  - intros slot Hin. unfold canFitTask. apply bool_decide_eq_true. by apply Hfits.
  - intros k slot (Hk & Ha & Hmin). apply scheduleFlexibleTask_first.
    split_and!; [done | |].
    + split; [done|]. apply Hfits. by eapply list_elem_of_lookup_2.
    + intros j s Hj Hlt [Ha' _]. by apply (Hmin j s).
Qed.

(** ** No double booking (C5) *)

Section NoDoubleBooking.
Context (wallClock : nat → Date) (this : TaskScheduler).

Lemma scheduleLoop_erases_trace ts :
  ∀ slots trace w,
    scheduleLoop wallClock this ts slots trace.*2 w =
      match scheduleTrace wallClock this ts slots trace w with
      | (Returned trace', w') => (Returned trace'.*2, w')
      | (Thrown message, w') => (Thrown message, w')
      end.
Proof.
  induction ts as [|t ts IH]; intros slots trace w; simpl; [done|].
  unfold mbind, M_bind.
  destruct (scheduleTask wallClock this t slots w) as [[[[o|] slots']|e] w1]; simpl.
  - rewrite <- IH. by rewrite fmap_app.
  - apply IH.
  - done.
Qed.

(** What one slot-based placement does. *)
Lemma scheduleTask_slotBased_step task slots w r w' :
  slotBased task →
  scheduleTask wallClock this task slots w = (r, w') →
  w' = w ∧
  (r = Returned (None, slots)
   ∨ ∃ k slot, slots !! k = Some slot ∧ available slot = true ∧ fits task slot
               ∧ r = Returned (Some (placedIn task slot), <[k := unavailable slot]> slots)).
Proof.
  intros Hs. rewrite (scheduleTask_slotBased _ _ _ _ Hs).
  destruct (preferredTimeRange task) as [range|] eqn:Hr.
  - destruct (scheduleTaskWithPreference_cases wallClock task range slots w Hr)
      as [(k & slot & Hf & ->)|[_ ->]]; intros [= <- <-]; (split; [done|]); [right | by left].
    destruct Hf as (Hk & (_ & Ha & Hfit) & _). by exists k, slot.
  - destruct (scheduleFlexibleTask_cases wallClock task slots w)
      as [(k & slot & Hf & ->)|[_ ->]]; intros [= <- <-]; (split; [done|]); [right | by left].
    destruct Hf as (Hk & (Ha & Hfit) & _). by exists k, slot.
Qed.

Lemma placedIn_clearOf task slots k k' slot slot' :
  gridState this slots → fits task slot →
  slots !! k = Some slot → slots !! k' = Some slot' → k ≠ k' →
  clearOf (placedIn task slot) slot'.
Proof.
  intros Hg Hfit Hk Hk' Hne.
  destruct (gridState_lookup _ _ _ _ Hg Hk) as [Hs He].
  destruct (gridState_lookup _ _ _ _ Hg Hk') as [Hs' He'].
  exists (slot_start slot), (slot_start slot + duration task * 60000).
  split_and!; [done | done |].
  unfold fits in Hfit. rewrite Hs' , He'. rewrite Hs, He in Hfit. rewrite Hs.
  unfold Date in *. destruct (lt_eq_lt_dec k k') as [[?|?]|?]; [left | done | right]; nia.
Qed.

Lemma clearOf_separated (a : Task) task slot :
  fits task slot → clearOf a slot →
  separated a (placedIn task slot) ∧ separated (placedIn task slot) a.
Proof.
  intros Hfit (s & e & Hs & He & Hclear). unfold fits in Hfit.
  assert (endsBefore a (placedIn task slot) ∨ endsBefore (placedIn task slot) a) as H.
  { destruct Hclear as [Hc|Hc].
    - left. exists e, (slot_start slot). by split_and!.
    - right. exists (slot_start slot + duration task * 60000), s.
      split_and!; [done | done |]. unfold Date in *. lia. }
  split; [done|]. destruct H; [by right | by left].
Qed.

Lemma traceInv_start : traceInv this (generateTimeSlots this) [].
Proof.
  split_and!.
  - apply gridState_generated.
  - intros i j a b _ Hi. by rewrite lookup_nil in Hi.
  - intros a slot Hin. by apply elem_of_nil in Hin.
Qed.

Lemma traceInv_fixed slots trace task placed :
  traceInv this slots trace → fixedWithStart task →
  traceInv this slots (trace ++ [(task, placed)]).
Proof.
  intros (Hg & Hpair & Hclear) Hf. split_and!; [done | |].
  - intros i j a b Hij Hi Hj Ha Hb.
    apply lookup_app_Some in Hi as [Hi|[_ Hi]];
      [|apply list_lookup_singleton_Some in Hi as [_ <-]; by destruct Ha].
    apply lookup_app_Some in Hj as [Hj|[_ Hj]];
      [|apply list_lookup_singleton_Some in Hj as [_ <-]; by destruct Hb].
    by apply (Hpair i j).
  - intros a slot [Hin|Hin]%elem_of_app Ha; [by apply Hclear|].
    apply list_elem_of_singleton in Hin as ->. by destruct Ha.
Qed.

Lemma traceInv_place slots trace task k slot :
  traceInv this slots trace →
  slots !! k = Some slot → available slot = true → fits task slot →
  traceInv this (<[k := unavailable slot]> slots) (trace ++ [(task, placedIn task slot)]).
Proof.
  intros (Hg & Hpair & Hclear) Hk Ha Hfit.
  assert (slot ∈ slots) as Hin by (by eapply list_elem_of_lookup_2).
  split_and!.
  - by apply gridState_mark.
  - intros i j a b Hij Hi Hj Hsa Hsb.
    apply lookup_app_Some in Hi as [Hi|[Hli Hi]];
      apply lookup_app_Some in Hj as [Hj|[Hlj Hj]].
    + by apply (Hpair i j).
    + apply list_lookup_singleton_Some in Hj as [_ <-]. simpl.
      apply clearOf_separated; [done|].
      apply Hclear; [by eapply list_elem_of_lookup_2 | done | done | done].
    + apply list_lookup_singleton_Some in Hi as [_ <-]. simpl.
      apply clearOf_separated; [done|].
      apply Hclear; [by eapply list_elem_of_lookup_2 | done | done | done].
    + apply list_lookup_singleton_Some in Hi as [Hi _].
      apply list_lookup_singleton_Some in Hj as [Hj _]. lia.
  - intros a slot' Hina Hsa [k' Hk']%list_elem_of_lookup_1 Ha'.
    assert (k ≠ k') as Hne.
    { intros <-. rewrite list_lookup_insert_eq in Hk' by (by eapply lookup_lt_Some).
      injection Hk' as <-. done. }
    rewrite list_lookup_insert_ne in Hk' by done.
    apply elem_of_app in Hina as [Hina|Hina].
    + apply Hclear; [done | done | by eapply list_elem_of_lookup_2 | done].
    + apply list_elem_of_singleton in Hina as ->. simpl.
      by apply (placedIn_clearOf task slots k k').
Qed.

Lemma scheduleTrace_separated ts :
  ∀ slots trace w trace' w',
    traceInv this slots trace →
    scheduleTrace wallClock this ts slots trace w = (Returned trace', w') →
    pairwiseSeparated trace'.
Proof.
  induction ts as [|t ts IH]; intros slots trace w trace' w' Hinv; simpl.
  - unfold_monad. intros [= <- _]. apply Hinv.
  - unfold mbind, M_bind.
    destruct (scheduleTask wallClock this t slots w) as [[[o slots']|e] w1] eqn:E; [|done].
    simpl. destruct (decide (fixedWithStart t)) as [Hf|Hs].
    + assert (slots' = slots) as ->.
      { rewrite (scheduleTask_fixed _ _ _ _ _ Hf) in E.
        destruct (scheduleFixedTask wallClock this t w) as [[?|?] ?]; by injection E. }
      destruct o as [placed|]; apply IH; [by apply traceInv_fixed | done].
    + apply (scheduleTask_slotBased_step _ _ _ _ _ Hs) in E
        as [-> [[= -> ->]|(k & slot & Hk & Ha & Hfit & [= -> ->])]].
      * by apply IH.
      * apply IH. by apply traceInv_place.
Qed.

End NoDoubleBooking.

Lemma separated_disjoint (a b : Task) :
  separated a b → ∀ x, ¬ (occupies a x ∧ occupies b x).
Proof.
  intros Hsep x [(s1 & e1 & Hs1 & He1 & Hx1) (s2 & e2 & Hs2 & He2 & Hx2)].
  destruct Hsep as [(e & s & He & Hs & Hle)|(e & s & He & Hs & Hle)].
  - rewrite He1 in He. rewrite Hs2 in Hs. injection He as <-. injection Hs as <-.
    unfold Date in *. lia.
  - rewrite He2 in He. rewrite Hs1 in Hs. injection He as <-. injection Hs as <-.
    unfold Date in *. lia.
Qed.

(** C5: take the list [autoSchedule] returns, and next to each record the
    task it was made from ([scheduleTrace], whose second components are that
    list).  Two records at different positions, both made by a slot-based
    strategy (their task was not a Fixed task with a [startTime]), never
    overlap: one ends no later than the other starts, so their
    [[startTime, endTime)] intervals share no instant.  A slot-based
    placement always takes a slot that is available and marks it
    unavailable, and nothing makes a slot available again. *)
Theorem slot_placements_never_overlap
    (wallClock : nat → Date) (this : TaskScheduler) (w w' : World) (out : list Task) :
  autoSchedule wallClock this w = (Returned out, w') →
  (∃ trace,
      scheduleTrace wallClock this (sort compareTasks (arrays w !!! tasks this))
        (generateTimeSlots this) [] (prioritizeTasks this w).2 = (Returned trace, w')
      ∧ out = trace.*2
      ∧ ∀ i j a b, i ≠ j → trace !! i = Some a → trace !! j = Some b →
          slotBased a.1 → slotBased b.1 →
          separated a.2 b.2 ∧ ∀ x, ¬ (occupies a.2 x ∧ occupies b.2 x))
  ∧ (∀ task slots w0 r w1,
       scheduleTask wallClock this task slots w0 = (Returned r, w1) →
       (∀ k slot, slots !! k = Some slot → available slot = false → r.2 !! k = Some slot)
       ∧ (slotBased task → ∀ placed, r.1 = Some placed →
            ∃ k slot, slots !! k = Some slot ∧ available slot = true
                      ∧ placed = with_times task (slot_start slot)
                                   (slot_start slot + duration task * msPerMinute)
                      ∧ r.2 = <[k := unavailable slot]> slots)).
Proof.
  intros Hrun. split.
  - rewrite autoSchedule_run in Hrun.
    pose proof (scheduleLoop_erases_trace wallClock this
                  (sort compareTasks (arrays w !!! tasks this))
                  (generateTimeSlots this) [] (prioritizeTasks this w).2) as Herase.
    simpl in Herase. rewrite Hrun in Herase.
    destruct (scheduleTrace _ _ _ _ _ _) as [[trace|e] w1] eqn:Htrace; [|done].
    injection Herase as -> ->. exists trace. split_and!; [done | done |].
    intros i j a b Hij Hi Hj Ha Hb.
    pose proof (scheduleTrace_separated wallClock this _ _ _ _ _ _
                  (traceInv_start this) Htrace i j a b Hij Hi Hj Ha Hb) as Hsep.
    split; [done | by apply separated_disjoint].
  - intros task slots w0 r w1 Hstep. split.
    + intros k slot Hk Ha.
      destruct (decide (fixedWithStart task)) as [Hf|Hs].
      * rewrite (scheduleTask_fixed _ _ _ _ _ Hf) in Hstep.
        destruct (scheduleFixedTask wallClock this task w0) as [[?|?] ?]; [|done].
        injection Hstep as <- _. done.
      * apply (scheduleTask_slotBased_step _ _ _ _ _ _ _ Hs) in Hstep
          as [_ [[= ->]|(k' & slot' & Hk' & Ha' & _ & [= ->])]]; [done|].
        simpl. rewrite list_lookup_insert_ne; [done|]. intros <-. congruence.
    + intros Hs placed Hplaced.
      apply (scheduleTask_slotBased_step _ _ _ _ _ _ _ Hs) in Hstep
        as [_ [[= ->]|(k' & slot' & Hk' & Ha' & _ & [= ->])]]; [done|].
      simpl in *. injection Hplaced as <-. by exists k', slot'.
Qed.

(** * Further properties of the engine *)

(** ** When a run returns *)

Section Returns.
Context (wallClock : nat → Date) (this : TaskScheduler).

Lemma outsideWorkday_dec (task : Task) :
  outsideWorkday this task ∨ ¬ outsideWorkday this task.
Proof.
  unfold outsideWorkday. destruct (decide (type task = FIXED)) as [Ht|Ht]; [|right; tauto].
  destruct (startTime task) as [s|]; [|right; intros (_ & s & ? & _); done].
  destruct (decide (workdayStart this ≤ s ≤ workdayEnd this)) as [Hin|Hout].
  - right. intros (_ & s' & [= <-] & Hout). done.
  - left. eauto.
Qed.

Lemma scheduleTask_returns task slots w :
  ¬ outsideWorkday this task →
  ∃ r w', scheduleTask wallClock this task slots w = (Returned r, w').
Proof.
  intros Hok. destruct (decide (fixedWithStart task)) as [Hf|Hs].
  - rewrite (scheduleTask_fixed _ _ _ _ _ Hf). destruct Hf as [Ht [s Hs]].
    destruct (decide (workdayStart this ≤ s ≤ workdayEnd this)) as [Hin|Hout].
    + rewrite (scheduleFixedTask_inside _ _ _ _ _ Hs Hin). by eexists _, _.
    + destruct Hok. split; eauto.
  - rewrite (scheduleTask_slotBased _ _ _ _ Hs). destruct (preferredTimeRange task).
    + destruct (scheduleTaskWithPreference_world wallClock task slots w) as [r ->]. eauto.
    + destruct (scheduleFlexibleTask_world wallClock task slots w) as [r ->]. eauto.
Qed.

Lemma scheduleLoop_returns ts :
  (∀ task, task ∈ ts → ¬ outsideWorkday this task) →
  ∀ slots acc w, ∃ out w',
    scheduleLoop wallClock this ts slots acc w = (Returned out, w').
Proof.
  induction ts as [|t ts IH]; intros Hok slots acc w; simpl.
  - unfold_monad. eauto.
  - unfold mbind, M_bind.
    destruct (scheduleTask_returns t slots w) as (r & w1 & ->); [apply Hok; by left|].
    destruct r as [[o|] slots']; simpl; apply IH; intros; apply Hok; by right.
Qed.

End Returns.

(** X1: [autoSchedule] returns a list exactly when the array holds no Fixed
    task whose [startTime] lies outside the workday; otherwise it throws. *)
Theorem autoSchedule_returns_iff_no_fixed_task_outside
    (wallClock : nat → Date) (this : TaskScheduler) (w : World) :
  (∃ out w', autoSchedule wallClock this w = (Returned out, w'))
  ↔ ∀ task, task ∈ arrays w !!! tasks this → ¬ outsideWorkday this task.
Proof.
  rewrite autoSchedule_run. split.
  - intros (out & w' & Hrun) task Hin (Ht & s & Hs & Hout).
    destruct (scheduleLoop_throws wallClock this task s
                (sort compareTasks (arrays w !!! tasks this))
                ltac:(by apply sort_elem_of) Ht Hs Hout (generateTimeSlots this) []
                {| arrays := <[tasks this := sort compareTasks (arrays w !!! tasks this)]>
                               (arrays w);
                   clockReads := clockReads w |}) as [w'' Hthrow].
    rewrite Hthrow in Hrun. discriminate.
  - intros Hok. apply scheduleLoop_returns.
    intros task Hin. apply Hok. by apply sort_elem_of in Hin.
Qed.

(** ** When the sort changes nothing *)

Lemma sort_sorted_id (l : list Task) : rankDescending l → sort compareTasks l = l.
Proof.
  unfold rankDescending. induction 1 as [|x l Hs IH Hd]; simpl; [done|].
  rewrite IH. destruct Hd as [|y l' Hxy]; simpl; [done|].
  unfold compareTasks. destruct (Z.ltb_spec 0 (rank y - rank x)); [lia | done].
Qed.

(** X2: the run leaves the caller's array as it was exactly when the array
    was already in descending rank order; sorting twice is sorting once, so
    a second run never reorders the array again. *)
Theorem autoSchedule_keeps_the_array_iff_sorted
    (wallClock : nat → Date) (this : TaskScheduler) (w : World) :
  (arrays (autoSchedule wallClock this w).2 !!! tasks this = arrays w !!! tasks this
   ↔ rankDescending (arrays w !!! tasks this))
  ∧ arrays (autoSchedule wallClock this (autoSchedule wallClock this w).2).2 !!! tasks this
    = arrays (autoSchedule wallClock this w).2 !!! tasks this.
Proof.
  assert (∀ w0, arrays (autoSchedule wallClock this w0).2 !!! tasks this
                = sort compareTasks (arrays w0 !!! tasks this)) as Hafter.
  { intros w0. rewrite autoSchedule_run.
    destruct (scheduleLoop _ _ _ _ _ _) as [r w'] eqn:E.
    apply scheduleLoop_arrays in E. simpl in *. by rewrite E, lookup_total_insert_eq. }
  split.
  - rewrite Hafter. split; [apply sort_fixpoint_sorted | apply sort_sorted_id].
  - rewrite !Hafter. apply sort_sorted_id, sort_sorted.
Qed.

(** ** The fit boundary and the bounds of a placement *)

Lemma gridState_length this slots :
  gridState this slots → length slots = slotCount (workdayStart this) (workdayEnd this).
Proof.
  intros Hg. rewrite (Forall2_length _ _ _ Hg). apply generateTimeSlots_length.
Qed.

Lemma canFitTask_grid this slots slot task :
  gridState this slots → slot ∈ slots →
  (canFitTask slot task = true ↔ duration task ≤ 30).
Proof.
  intros Hg [k Hk]%list_elem_of_lookup_1.
  destruct (gridState_lookup _ _ _ _ Hg Hk) as [Hs He].
  unfold canFitTask. rewrite bool_decide_eq_true, Hs, He.
  unfold msPerMinute, Date in *. lia.
Qed.

(** X3: in a grid of the run every slot lasts 30 minutes, so a task fits a
    slot exactly when its duration is at most 30 minutes; a task of more
    than 30 minutes that is not Fixed with a [startTime] is dropped whatever
    the state of the grid and whatever its preferred window, and the grid is
    left as it was. *)
Theorem longer_than_a_slot_is_never_placed
    (wallClock : nat → Date) (this : TaskScheduler)
    (task : Task) (slots : list TimeSlot) (w : World) :
  gridState this slots →
  (∀ slot, slot ∈ slots → (canFitTask slot task = true ↔ duration task ≤ 30))
  ∧ (slotBased task → 30 < duration task →
     scheduleTask wallClock this task slots w = (Returned (None, slots), w)).
Proof.
  intros Hg. split; [intros slot Hin; by eapply canFitTask_grid|].
  intros Hs Hd.
  assert (∀ slot, slot ∈ slots → ¬ fits task slot) as Hnofit.
  { intros slot Hin Hfit.
    assert (canFitTask slot task = true) as Hc by (by apply bool_decide_eq_true).
    apply (canFitTask_grid this slots slot task Hg Hin) in Hc. lia. }
  rewrite (scheduleTask_slotBased _ _ _ _ Hs).
  destruct (preferredTimeRange task) as [range|] eqn:Hr.
  - apply (scheduleTaskWithPreference_none _ _ range); [done|].
    intros slot Hin (_ & _ & Hfit). by apply (Hnofit slot).
  - apply scheduleFlexibleTask_none. intros slot Hin [_ Hfit]. by apply (Hnofit slot).
Qed.

(** X4: a slot-based placement starts inside the workday, at the start of a
    slot, and ends [duration] minutes after its start, no later than the
    slot does; when the window is a whole number of half-hours that is by
    [workdayEnd]; a task with a preferred window starts inside the window
    and ends by its end.  When the duration is not negative the record does
    not end before it starts, so that it lies within its slot, within the
    workday and within the preferred window; a positive duration gives a
    non-empty interval.  A negative duration, which the engine places as
    well, gives a record that ends before it starts. *)
Theorem slot_placement_stays_in_bounds
    (wallClock : nat → Date) (this : TaskScheduler)
    (task placed : Task) (slots slots' : list TimeSlot) (w w' : World) :
  gridState this slots → slotBased task →
  scheduleTask wallClock this task slots w = (Returned (Some placed, slots'), w') →
  ∃ s e, startTime placed = Some s ∧ endTime placed = Some e
    ∧ workdayStart this ≤ s < workdayEnd this
    ∧ (s - workdayStart this) mod (30 * msPerMinute) = 0
    ∧ e = s + duration task * msPerMinute
    ∧ e ≤ s + 30 * msPerMinute
    ∧ ((workdayEnd this - workdayStart this) mod (30 * msPerMinute) = 0 → e ≤ workdayEnd this)
    ∧ (∀ range, preferredTimeRange task = Some range →
         range_start range ≤ s ∧ e ≤ range_end range)
    ∧ (0 < duration task → s < e)
    ∧ (0 ≤ duration task →
       s ≤ e
       ∧ workdayStart this ≤ e
       ∧ ∀ range, preferredTimeRange task = Some range →
           range_start range ≤ s ∧ s ≤ e ∧ e ≤ range_end range)
    ∧ (duration task < 0 → e < s).
Proof.
  intros Hg Hs Hrun.
  assert (∃ k slot, slots !! k = Some slot ∧ fits task slot
            ∧ placed = placedIn task slot
            ∧ (∀ range, preferredTimeRange task = Some range → within range slot))
    as (k & slot & Hk & Hfit & -> & Hwithin).
  { rewrite (scheduleTask_slotBased _ _ _ _ Hs) in Hrun.
    destruct (preferredTimeRange task) as [range|] eqn:Hr.
    - destruct (scheduleTaskWithPreference_cases wallClock task range slots w Hr)
        as [(k & slot & (Hk & (Hw & _ & Hfit) & _) & Heq)|[_ Heq]];
        rewrite Heq in Hrun; [|done].
      injection Hrun as <- _ _. exists k, slot. split_and!; try done.
      by intros ? [= <-].
    - destruct (scheduleFlexibleTask_cases wallClock task slots w)
        as [(k & slot & (Hk & (_ & Hfit) & _) & Heq)|[_ Heq]];
        rewrite Heq in Hrun; [|done].
      injection Hrun as <- _ _. exists k, slot. split_and!; done. }
  destruct (gridState_lookup _ _ _ _ Hg Hk) as [Hstart Hend].
  pose proof (lookup_lt_Some _ _ _ Hk) as Hlt.
  rewrite (gridState_length _ _ Hg) in Hlt.
  assert (workdayStart this < workdayEnd this) as Hwin.
  { destruct (decide (workdayStart this < workdayEnd this)) as [|Hn]; [done|].
    rewrite (slotCount_done _ _ Hn) in Hlt. lia. }
  pose proof (slotCount_bounds (workdayStart this) (workdayEnd this)
                ltac:(unfold Date in *; lia)) as Hb.
  unfold fits in Hfit. rewrite Hstart, Hend in Hfit.
  exists (slot_start slot), (slot_start slot + duration task * 60000).
  change (30 * msPerMinute) with 1800000. unfold msPerMinute.
  split_and!; try done.
  - rewrite Hstart. unfold Date in *. lia.
  - rewrite Hstart. unfold Date in *. nia.
  - rewrite Hstart.
    replace (workdayStart this + Z.of_nat k * 1800000 - workdayStart this)
      with (Z.of_nat k * 1800000) by (unfold Date in *; lia).
    apply Z.mod_mul. lia.
  - unfold Date in *. lia.
  - intros Hmod. rewrite Hstart.
    pose proof (Z.div_mod (workdayEnd this - workdayStart this) 1800000 ltac:(lia)) as Hdm.
    rewrite Hmod in Hdm. unfold Date in *. nia.
  - intros range Hr. destruct (Hwithin range Hr) as [Hrs Hre]. split; [done|].
    rewrite Hend in Hre. rewrite Hstart. unfold Date in *. lia.
  - unfold Date in *. lia.
  - intros Hd. split; [unfold Date in *; lia|].
    split; [rewrite Hstart; unfold Date in *; lia|].
    intros range Hr. destruct (Hwithin range Hr) as [Hrs Hre]. split; [done|].
    rewrite Hend in Hre. rewrite Hstart. unfold Date in *. lia.
  - unfold Date in *. lia.
Qed.

(** ** Where the output comes from, and its order *)

Lemma StronglySorted_sublist {A} (R : relation A) (l' l : list A) :
  l' `sublist_of` l → StronglySorted R l → StronglySorted R l'.
Proof.
  induction 1 as [|x l1 l2 Hsub IH|x l1 l2 Hsub IH]; intros Hs; [done | |].
  - apply StronglySorted_inv in Hs as [Hs Hall]. constructor; [by apply IH|].
    clear IH Hs. induction Hsub as [|y k1 k2 _ IH|y k1 k2 _ IH]; [done | |].
    + apply Forall_cons in Hall as [? ?]. constructor; [done | by apply IH].
    + apply Forall_cons in Hall as [_ ?]. by apply IH.
  - apply StronglySorted_inv in Hs as [Hs _]. by apply IH.
Qed.

Lemma rankDescending_sublist (l' l : list Task) :
  l' `sublist_of` l → rankDescending l → rankDescending l'.
Proof.
  intros Hsub Hs. apply StronglySorted_Sorted, (StronglySorted_sublist _ _ l Hsub).
  apply Sorted_StronglySorted; [intros a b c ? ?; lia | done].
Qed.

Lemma rankDescending_same_types (l1 l2 : list Task) :
  Forall2 (λ a b, type b = type a) l1 l2 → rankDescending l1 → rankDescending l2.
Proof.
  unfold rankDescending. induction 1 as [|a b l1 l2 Hab Hl IH]; intros Hs; [constructor|].
  apply Sorted_inv in Hs as [Hs Hd]. constructor; [by apply IH|].
  destruct Hl as [|a' b' l1' l2' Hab' _]; constructor.
  apply HdRel_inv in Hd. rewrite (rank_ignores_priority b a Hab).
  by rewrite (rank_ignores_priority b' a' Hab').
Qed.

Section Provenance.
Context (wallClock : nat → Date) (this : TaskScheduler).

Lemma scheduleTask_placedFrom task slots w placed slots' w' :
  scheduleTask wallClock this task slots w = (Returned (Some placed, slots'), w') →
  placedFrom task placed.
Proof.
  destruct (decide (fixedWithStart task)) as [Hf|Hs].
  - rewrite (scheduleTask_fixed _ _ _ _ _ Hf). pose proof Hf as [_ [s Hs]].
    unfold scheduleFixedTask. rewrite Hs.
    destruct (isWithinWorkday this s); [|done]. unfold_monad. simpl.
    intros [= <- _ _]. unfold placedFrom. simpl. split_and!; by eauto.
  - intros [_ [[=]|(k & slot & _ & _ & _ & [= -> _])]]%(scheduleTask_slotBased_step _ _ _ _ _ _ _ Hs).
    unfold placedFrom. simpl. split_and!; by eauto.
Qed.

Lemma scheduleTrace_extends ts :
  ∀ slots trace w trace' w',
    scheduleTrace wallClock this ts slots trace w = (Returned trace', w') →
    ∃ added, trace' = trace ++ added
             ∧ added.*1 `sublist_of` ts
             ∧ Forall (λ entry, placedFrom entry.1 entry.2) added.
Proof.
  induction ts as [|t ts IH]; intros slots trace w trace' w'; simpl.
  - unfold_monad. intros [= <- _]. exists []. by rewrite app_nil_r.
  - unfold mbind, M_bind.
    destruct (scheduleTask wallClock this t slots w) as [[[[o|] slots']|e] w1] eqn:E;
      [| |done]; simpl; intros (added & -> & Hsub & Hall)%IH.
    + exists ((t, o) :: added). rewrite <- app_assoc. split_and!; [done | |].
      * simpl. by constructor.
      * constructor; [|done]. by eapply scheduleTask_placedFrom.
    + exists added. split_and!; [done | by constructor | done].
Qed.

End Provenance.

(** X5: every record of the output is made from a task of the array, with
    the same id, name, type, priority, duration, preferred window, frequency
    and bookkeeping dates, and carries both a [startTime] and an [endTime];
    the tasks the records are made from form a subsequence of the sorted
    array, so the output is never longer than the array and is itself in
    descending rank order. *)
Theorem output_is_drawn_from_the_sorted_array
    (wallClock : nat → Date) (this : TaskScheduler) (w w' : World) (out : list Task) :
  autoSchedule wallClock this w = (Returned out, w') →
  ∃ trace, out = trace.*2
    ∧ trace.*1 `sublist_of` sort compareTasks (arrays w !!! tasks this)
    ∧ Forall (λ entry, placedFrom entry.1 entry.2) trace
    ∧ (length out ≤ length (arrays w !!! tasks this))%nat
    ∧ rankDescending out.
Proof.
  intros Hrun. rewrite autoSchedule_run in Hrun.
  pose proof (scheduleLoop_erases_trace wallClock this
                (sort compareTasks (arrays w !!! tasks this))
                (generateTimeSlots this) [] (prioritizeTasks this w).2) as Herase.
  simpl in Herase. rewrite Hrun in Herase.
  destruct (scheduleTrace _ _ _ _ _ _) as [[trace|e] w1] eqn:Htrace; [|done].
  injection Herase as -> ->.
  apply scheduleTrace_extends in Htrace as (added & -> & Hsub & Hall). simpl in *.
  exists added. split_and!; [done | done | done | |].
  - pose proof (sublist_length _ _ Hsub) as Hlen.
    rewrite (Permutation_length (sort_perm compareTasks _)) in Hlen.
    rewrite length_fmap in *. lia.
  - apply (rankDescending_same_types added.*1).
    + apply Forall2_fmap, Forall_Forall2_diag.
      apply (Forall_impl _ _ _ Hall). intros entry Hp. apply Hp.
    + apply (rankDescending_sublist _ _ Hsub), sort_sorted.
Qed.

(** ** Capacity of the grid *)

Lemma availableSlots_mark slots k slot :
  slots !! k = Some slot → available slot = true →
  S (length (availableSlots (<[k := unavailable slot]> slots))) = length (availableSlots slots).
Proof.
  unfold availableSlots. revert k. induction slots as [|s slots IH]; intros [|k] Hk Ha;
    simpl in *; try done.
  - injection Hk as ->. rewrite (filter_cons_True _ slot) by done.
    rewrite (filter_cons_False _ (unavailable slot)) by (by simpl). done.
  - rewrite !(filter_cons _ s). case_decide; simpl; by rewrite (IH k).
Qed.

Lemma slotEntries_snoc trace task placed :
  slotEntries (trace ++ [(task, placed)])
  = slotEntries trace ++ (if decide (slotBased task) then [(task, placed)] else []).
Proof.
  unfold slotEntries. rewrite filter_app. f_equal.
Qed.

Lemma scheduleTrace_capacity wallClock this ts :
  ∀ slots trace w trace' w',
    scheduleTrace wallClock this ts slots trace w = (Returned trace', w') →
    (length (slotEntries trace')
     ≤ length (slotEntries trace) + length (availableSlots slots))%nat.
Proof.
  induction ts as [|t ts IH]; intros slots trace w trace' w'; simpl.
  - unfold_monad. intros [= <- _]. lia.
  - unfold mbind, M_bind.
    destruct (scheduleTask wallClock this t slots w) as [[[o slots']|e] w1] eqn:E; [|done].
    simpl. destruct (decide (fixedWithStart t)) as [Hf|Hs].
    + assert (slots' = slots) as ->.
      { rewrite (scheduleTask_fixed _ _ _ _ _ Hf) in E.
        destruct (scheduleFixedTask wallClock this t w) as [[?|?] ?]; by injection E. }
      destruct o as [placed|]; intros Hrun%IH; [|done].
      rewrite slotEntries_snoc in Hrun. rewrite decide_False in Hrun by (by intros []).
      by rewrite app_nil_r in Hrun.
    + apply (scheduleTask_slotBased_step _ _ _ _ _ _ _ Hs) in E
        as [-> [[= -> ->]|(k & slot & Hk & Ha & _ & [= -> ->])]]; intros Hrun%IH; [done|].
      rewrite slotEntries_snoc, decide_True, length_app in Hrun by done. simpl in Hrun.
      pose proof (availableSlots_mark _ _ _ Hk Ha). lia.
Qed.

Lemma trace_split (trace : list (Task * Task)) :
  (length (filter (λ entry, fixedWithStart entry.1) trace) + length (slotEntries trace)
   = length trace)%nat.
Proof.
  unfold slotEntries. induction trace as [|entry trace IH]; [done|].
  rewrite !filter_cons.
  destruct (decide (fixedWithStart entry.1)) as [Hf|Hnf];
    destruct (decide (slotBased entry.1)) as [Hs|Hns]; simpl; try lia.
  - by destruct Hs.
  - by destruct Hns.
Qed.

Lemma scheduleTrace_fixed_entries wallClock this ts :
  ∀ slots trace w trace' w',
    scheduleTrace wallClock this ts slots trace w = (Returned trace', w') →
    (length (filter (λ entry, fixedWithStart entry.1) trace')
     = length (filter (λ entry, fixedWithStart entry.1) trace)
       + length (filter fixedWithStart ts))%nat.
Proof.
  induction ts as [|t ts IH]; intros slots trace w trace' w'; simpl.
  - unfold_monad. intros [= <- _]. lia.
  - unfold mbind, M_bind. rewrite (filter_cons _ t).
    destruct (decide (fixedWithStart t)) as [Hf|Hs].
    + rewrite (scheduleTask_fixed _ _ _ _ _ Hf).
      destruct (scheduleFixedTask wallClock this t w) as [[placed|message] w1]; [|done].
      simpl. intros Hrun%IH. rewrite Hrun, filter_app, length_app.
      rewrite (filter_cons_True _ (t, placed)) by done. simpl. lia.
    + destruct (scheduleTask wallClock this t slots w) as [r w1] eqn:E.
      apply (scheduleTask_slotBased_step _ _ _ _ _ _ _ Hs) in E
        as [-> [->|(k & slot & _ & _ & _ & ->)]]; simpl; intros Hrun%IH; [done|].
      rewrite Hrun, filter_app, length_app.
      rewrite (filter_cons_False _ (t, placedIn t slot)) by done. simpl. lia.
Qed.

(** X6: a run places at most as many tasks through the grid as the grid has
    slots, [(workdayEnd - workdayStart) / 30min] rounded up; the rest of the
    slot-based tasks are dropped.  In the trace of the loop (each record of
    the output beside the task it was made from) the entries that come from
    slot-based placements are at most that many; the output holds, besides
    them, one record for each Fixed task with a [startTime], so it is never
    longer than the number of those tasks plus the number of slots. *)
Theorem grid_capacity_bounds_slot_placements
    (wallClock : nat → Date) (this : TaskScheduler) (w w' : World) (out : list Task) :
  autoSchedule wallClock this w = (Returned out, w') →
  (∃ trace,
     scheduleTrace wallClock this (sort compareTasks (arrays w !!! tasks this))
       (generateTimeSlots this) [] (prioritizeTasks this w).2 = (Returned trace, w')
     ∧ out = trace.*2
     ∧ (length (slotEntries trace) ≤ slotCount (workdayStart this) (workdayEnd this))%nat
     ∧ length out
       = (length (filter fixedWithStart (arrays w !!! tasks this))
          + length (slotEntries trace))%nat)
  ∧ (length out
     ≤ length (filter fixedWithStart (arrays w !!! tasks this))
       + slotCount (workdayStart this) (workdayEnd this))%nat.
Proof.
  intros Hrun. rewrite autoSchedule_run in Hrun.
  pose proof (scheduleLoop_erases_trace wallClock this
                (sort compareTasks (arrays w !!! tasks this))
                (generateTimeSlots this) [] (prioritizeTasks this w).2) as Herase.
  simpl in Herase. rewrite Hrun in Herase.
  destruct (scheduleTrace _ _ _ _ _ _) as [[trace|e] w1] eqn:Htrace; [|done].
  injection Herase as -> ->.
  assert (length (slotEntries trace) ≤ slotCount (workdayStart this) (workdayEnd this))%nat
    as Hcap.
  { pose proof (scheduleTrace_capacity _ _ _ _ _ _ _ _ Htrace) as Hc. simpl in Hc.
    etrans; [exact Hc|]. rewrite <- generateTimeSlots_length.
    unfold availableSlots. apply length_filter. }
  assert (length trace.*2
          = (length (filter fixedWithStart (arrays w !!! tasks this))
             + length (slotEntries trace))%nat) as Hlen.
  { pose proof (scheduleTrace_fixed_entries _ _ _ _ _ _ _ _ Htrace) as Hfix.
    simpl in Hfix. rewrite length_fmap, <- (trace_split trace), Hfix. f_equal.
    apply Permutation_length. by rewrite sort_perm. }
  split; [|lia]. exists trace. by split_and!.
Qed.

(** X7: a task without preferred window that is not Fixed with a
    [startTime] and lasts at most 30 minutes is dropped only when the grid
    is full: it is placed exactly when some slot is still available. *)
Theorem flexible_task_dropped_iff_grid_full
    (wallClock : nat → Date) (this : TaskScheduler)
    (task : Task) (slots : list TimeSlot) (w : World) :
  gridState this slots → slotBased task → preferredTimeRange task = None →
  duration task ≤ 30 →
  (scheduleTask wallClock this task slots w = (Returned (None, slots), w)
   ↔ availableSlots slots = [])
  ∧ (availableSlots slots ≠ [] →
     ∃ placed slots', scheduleTask wallClock this task slots w
                      = (Returned (Some placed, slots'), w)).
Proof.
  intros Hg Hs Hp Hd. rewrite (scheduleTask_slotBased _ _ _ _ Hs), Hp.
  assert (∀ slot, slot ∈ slots → (flexibleCandidate task slot ↔ available slot = true))
    as Hcand.
  { intros slot Hin. unfold flexibleCandidate. split; [by intros [? _]|].
    intros Ha. split; [done|].
    apply (canFitTask_grid this slots slot task Hg Hin) in Hd.
    by apply bool_decide_eq_true in Hd. }
  assert (availableSlots slots = [] ↔ ∀ slot, slot ∈ slots → ¬ flexibleCandidate task slot)
    as Hfull.
  { unfold availableSlots. split.
    - intros Hnil slot Hin Hc. apply (Hcand slot Hin) in Hc.
      assert (slot ∈ filter (λ slot, available slot = true) slots) as Hf
        by (by apply list_elem_of_filter).
      rewrite Hnil in Hf. by apply elem_of_nil in Hf.
    - intros Hnone. apply elem_of_nil_inv. intros slot [Ha Hin]%list_elem_of_filter.
      by apply (Hnone slot Hin), Hcand. }
  destruct (scheduleFlexibleTask_cases wallClock task slots w)
    as [(k & slot & Hf & Heq)|[Hnone Heq]]; rewrite Heq.
  - destruct (firstAt_lookup _ _ _ _ Hf) as [Hk Hc]. split.
    + split; [done|]. intros Hnil.
      destruct (proj1 Hfull Hnil slot); [by eapply list_elem_of_lookup_2 | done].
    + intros _. by eexists _, _.
  - split; [split; [intros _; by apply (proj2 Hfull) | done]|].
    intros Hne. destruct Hne. by apply (proj2 Hfull).
Qed.

(** ** What a placement reads of the world *)

Section Frame.
Context (wallClock : nat → Date) (this : TaskScheduler).

(** A slot-based placement reads neither the clock nor the world. *)
Lemma scheduleTask_slotBased_pure task slots :
  slotBased task →
  ∃ r, ∀ (clock : nat → Date) w, scheduleTask clock this task slots w = (Returned r, w).
Proof.
  intros Hs. destruct (preferredTimeRange task) as [range|] eqn:Hr.
  - destruct (scheduleTaskWithPreference_cases wallClock task range slots
                {| arrays := ∅; clockReads := 0 |} Hr) as [(k & slot & Hf & _)|[Hnone _]].
    + eexists. intros clock w. rewrite (scheduleTask_slotBased _ _ _ _ Hs), Hr.
      by apply (scheduleTaskWithPreference_first _ _ range).
    + eexists. intros clock w. rewrite (scheduleTask_slotBased _ _ _ _ Hs), Hr.
      by apply (scheduleTaskWithPreference_none _ _ range).
  - destruct (scheduleFlexibleTask_cases wallClock task slots
                {| arrays := ∅; clockReads := 0 |}) as [(k & slot & Hf & _)|[Hnone _]].
    + eexists. intros clock w. rewrite (scheduleTask_slotBased _ _ _ _ Hs), Hr.
      by apply scheduleFlexibleTask_first.
    + eexists. intros clock w. rewrite (scheduleTask_slotBased _ _ _ _ Hs), Hr.
      by apply scheduleFlexibleTask_none.
Qed.

(** A placement reads of the world only the number of clock readings. *)
Lemma scheduleTask_arrays_frame task slots w r w' (a : gmap loc (list Task)) :
  scheduleTask wallClock this task slots w = (r, w') →
  scheduleTask wallClock this task slots {| arrays := a; clockReads := clockReads w |}
    = (r, {| arrays := a; clockReads := clockReads w' |}).
Proof.
  destruct (decide (fixedWithStart task)) as [Hf|Hs].
  - rewrite !(scheduleTask_fixed _ _ _ _ _ Hf). unfold scheduleFixedTask.
    destruct (startTime task) as [s|]; [|by intros [= <- <-]].
    destruct (isWithinWorkday this s); by intros [= <- <-].
  - destruct (scheduleTask_slotBased_pure task slots Hs) as [r0 Hr0].
    rewrite !Hr0. by intros [= <- <-].
Qed.

Lemma scheduleLoop_arrays_frame ts (a : gmap loc (list Task)) :
  ∀ slots acc w r w',
    scheduleLoop wallClock this ts slots acc w = (r, w') →
    scheduleLoop wallClock this ts slots acc {| arrays := a; clockReads := clockReads w |}
      = (r, {| arrays := a; clockReads := clockReads w' |}).
Proof.
  induction ts as [|t ts IH]; intros slots acc w r w'; simpl.
  - unfold_monad. by intros [= <- <-].
  - unfold mbind, M_bind.
    destruct (scheduleTask wallClock this t slots w) as [[[o slots']|e] w1] eqn:E;
      rewrite (scheduleTask_arrays_frame _ _ _ _ _ a E).
    + simpl. destruct o; apply IH.
    + by intros [= <- <-].
Qed.

End Frame.

(** ** Fixed tasks take no slot *)

Lemma sort_filter (P : Task → Prop) `{!∀ x, Decision (P x)} (l : list Task) :
  filter P (sort compareTasks l) = sort compareTasks (filter P l).
Proof.
  apply sort_is_the_stable_sort.
  - apply (rankDescending_sublist _ (sort compareTasks l)); [apply sublist_filter|].
    apply sort_sorted.
  - intros r. rewrite !list_filter_filter.
    rewrite (list_filter_iff _ (λ a, P a ∧ rank a = r) (sort compareTasks l))
      by (intros; tauto).
    rewrite (list_filter_iff _ (λ a, P a ∧ rank a = r) l) by (intros; tauto).
    rewrite <- !(list_filter_filter P). by rewrite sort_stable.
Qed.

Lemma scheduleTrace_without_fixed wallClock this ts :
  ∀ slots trace w trace' w',
    scheduleTrace wallClock this ts slots trace w = (Returned trace', w') →
    ∀ w0, scheduleTrace wallClock this (filter slotBased ts) slots (slotEntries trace) w0
          = (Returned (slotEntries trace'), w0).
Proof.
  induction ts as [|t ts IH]; intros slots trace w trace' w'; simpl.
  - unfold_monad. by intros [= <- _] w0.
  - unfold mbind, M_bind.
    destruct (scheduleTask wallClock this t slots w) as [[[o slots']|e] w1] eqn:E; [|done].
    simpl. rewrite filter_cons. destruct (decide (slotBased t)) as [Hs|Hf].
    + destruct (scheduleTask_slotBased_pure wallClock this t slots Hs) as [[o0 s0] Hr].
      rewrite Hr in E. injection E as <- <- <-. intros Hrun w0. simpl.
      unfold mbind, M_bind. rewrite Hr. destruct o0 as [placed|]; simpl in *.
      * pose proof (IH _ _ _ _ _ Hrun w0) as H.
        rewrite slotEntries_snoc, decide_True in H by done. done.
      * by apply (IH _ _ _ _ _ Hrun).
    + assert (fixedWithStart t) as Hf' by (by apply dec_stable).
      assert (slots' = slots) as ->.
      { rewrite (scheduleTask_fixed _ _ _ _ _ Hf') in E.
        destruct (scheduleFixedTask wallClock this t w) as [[?|?] ?]; by injection E. }
      destruct o as [placed|]; intros Hrun w0.
      * pose proof (IH _ _ _ _ _ Hrun w0) as H.
        rewrite slotEntries_snoc, decide_False, app_nil_r in H by done. done.
      * by apply (IH _ _ _ _ _ Hrun).
Qed.

(** X8: Fixed tasks with a [startTime] never touch the grid.  Take the trace
    of a run that returns (each record of the output beside the task it was
    made from).  The trace of the run on the array without those Fixed tasks
    is the first trace without their entries: every other task is placed,
    and gets exactly the record it got in the first run.  (So nothing keeps
    a slot-based task off the time of a Fixed task.) *)
Theorem fixed_tasks_take_no_slot
    (wallClock : nat → Date) (this : TaskScheduler) (w w2 w' : World) (out : list Task) :
  arrays w2 !!! tasks this = filter slotBased (arrays w !!! tasks this) →
  autoSchedule wallClock this w = (Returned out, w') →
  ∃ trace,
    scheduleTrace wallClock this (sort compareTasks (arrays w !!! tasks this))
      (generateTimeSlots this) [] (prioritizeTasks this w).2 = (Returned trace, w')
    ∧ out = trace.*2
    ∧ scheduleTrace wallClock this (sort compareTasks (arrays w2 !!! tasks this))
        (generateTimeSlots this) [] (prioritizeTasks this w2).2
      = (Returned (slotEntries trace), (prioritizeTasks this w2).2)
    ∧ (autoSchedule wallClock this w2).1 = Returned (slotEntries trace).*2.
Proof.
  intros Harr Hrun. rewrite autoSchedule_run in Hrun.
  pose proof (scheduleLoop_erases_trace wallClock this
                (sort compareTasks (arrays w !!! tasks this))
                (generateTimeSlots this) [] (prioritizeTasks this w).2) as Herase.
  simpl in Herase. rewrite Hrun in Herase.
  destruct (scheduleTrace _ _ _ _ _ _) as [[trace|e] w1] eqn:Htrace; [|done].
  injection Herase as -> ->. exists trace.
  pose proof (scheduleTrace_without_fixed _ _ _ _ _ _ _ _ Htrace) as Hsame.
  simpl in Hsame. rewrite sort_filter, <- Harr in Hsame.
  split; [done|]. split; [done|]. split; [apply Hsame|].
  rewrite autoSchedule_run.
  pose proof (scheduleLoop_erases_trace wallClock this
                (sort compareTasks (arrays w2 !!! tasks this))
                (generateTimeSlots this) []) as Herase2.
  simpl in Herase2. rewrite Herase2. by rewrite Hsame.
Qed.

(** ** The clock *)

Lemma scheduleLoop_clockReads wallClock this ts :
  ∀ slots acc w out w',
    scheduleLoop wallClock this ts slots acc w = (Returned out, w') →
    clockReads w' = (clockReads w + length (filter fixedWithStart ts))%nat.
Proof.
  induction ts as [|t ts IH]; intros slots acc w out w'; simpl.
  - unfold_monad. intros [= _ <-]. simpl. lia.
  - unfold mbind, M_bind. rewrite filter_cons.
    destruct (decide (fixedWithStart t)) as [Hf|Hs].
    + rewrite (scheduleTask_fixed _ _ _ _ _ Hf). unfold scheduleFixedTask.
      destruct (startTime t) as [s|]; [|done].
      destruct (isWithinWorkday this s); [|done]. unfold_monad. simpl.
      intros Hrun%IH. simpl in *. lia.
    + destruct (scheduleTask_slotBased_pure wallClock this t slots Hs) as [[o s0] Hr].
      rewrite Hr. simpl. destruct o; by intros Hrun%IH.
Qed.

Lemma scheduleLoop_any_clock this (clock1 clock2 : nat → Date) ts :
  (∀ task, task ∈ ts → slotBased task) →
  ∀ slots acc w,
    scheduleLoop clock1 this ts slots acc w = scheduleLoop clock2 this ts slots acc w.
Proof.
  induction ts as [|t ts IH]; intros Hall slots acc w; simpl; [done|].
  unfold mbind, M_bind.
  destruct (scheduleTask_slotBased_pure clock1 this t slots) as [[o s0] Hr];
    [apply Hall; by left|].
  rewrite !Hr. simpl. destruct o; apply IH; intros; apply Hall; by right.
Qed.

(** X9: a run that returns has read the clock once for each Fixed task with
    a [startTime] and not otherwise; when the array holds no such task the
    run does not depend on the clock at all. *)
Theorem run_reads_the_clock_only_for_fixed_tasks
    (wallClock : nat → Date) (this : TaskScheduler) (w : World) :
  (∀ out w', autoSchedule wallClock this w = (Returned out, w') →
     clockReads w'
     = (clockReads w + length (filter fixedWithStart (arrays w !!! tasks this)))%nat)
  ∧ ((∀ task, task ∈ arrays w !!! tasks this → slotBased task) →
     ∀ clock2, autoSchedule clock2 this w = autoSchedule wallClock this w).
Proof.
  split.
  - intros out w' Hrun. rewrite autoSchedule_run in Hrun.
    apply scheduleLoop_clockReads in Hrun. simpl in Hrun. rewrite Hrun. f_equal.
    apply Permutation_length. by rewrite sort_perm.
  - intros Hall clock2. rewrite !autoSchedule_run. apply scheduleLoop_any_clock.
    intros task Hin. apply Hall. by apply sort_elem_of in Hin.
Qed.

(** ** Priorities *)

Lemma sortInsert_withPriority p (x : Task) (l : list Task) :
  sortInsert compareTasks (withPriority p x) (withPriority p <$> l)
  = withPriority p <$> sortInsert compareTasks x l.
Proof.
  induction l as [|y l IH]; [done|].
  rewrite fmap_cons. cbn [sortInsert].
  assert (compareTasks (withPriority p x) (withPriority p y) = compareTasks x y) as ->.
  { unfold compareTasks. by rewrite !rank_by_type. }
  destruct (0 <? compareTasks x y); [by rewrite fmap_cons, IH | done].
Qed.

Lemma sort_withPriority p (l : list Task) :
  sort compareTasks (withPriority p <$> l) = withPriority p <$> sort compareTasks l.
Proof.
  induction l as [|x l IH]; [done|].
  rewrite fmap_cons. cbn [sort]. rewrite IH. apply sortInsert_withPriority.
Qed.

Section Priorities.
Context (wallClock : nat → Date) (this : TaskScheduler) (p : TaskPriority).

Lemma scheduleTask_withPriority task slots w :
  scheduleTask wallClock this (withPriority p task) slots w
  = outcomeWithPriority p (scheduleTask wallClock this task slots w).
Proof.
  unfold scheduleTask. cbn [type startTime preferredTimeRange withPriority].
  destruct (bool_decide (type task = FIXED) && bool_decide (is_Some (startTime task))).
  - unfold scheduleFixedTask. cbn [startTime withPriority].
    destruct (startTime task) as [s|]; [|done].
    destruct (isWithinWorkday this s); done.
  - case_bool_decide.
    + unfold scheduleTaskWithPreference. cbn [preferredTimeRange withPriority].
      destruct (preferredTimeRange task) as [range|]; [|done].
      case_bool_decide; [|done].
      change (λ slot, canFitTask slot (withPriority p task))
        with (λ slot, canFitTask slot task).
      destruct (findSlot _ _ _); done.
    + unfold scheduleFlexibleTask.
      change (λ slot, available slot && canFitTask slot (withPriority p task))
        with (λ slot, available slot && canFitTask slot task).
      destruct (filterSlots _ _); done.
Qed.

Lemma scheduleLoop_withPriority ts :
  ∀ slots acc w,
    scheduleLoop wallClock this (withPriority p <$> ts) slots (withPriority p <$> acc) w
    = match scheduleLoop wallClock this ts slots acc w with
      | (Returned out, w') => (Returned (withPriority p <$> out), w')
      | (Thrown message, w') => (Thrown message, w')
      end.
Proof.
  induction ts as [|t ts IH]; intros slots acc w; simpl; [done|].
  unfold mbind, M_bind. rewrite scheduleTask_withPriority.
  destruct (scheduleTask wallClock this t slots w) as [[[[o|] slots']|e] w1]; simpl.
  - rewrite <- IH. by rewrite fmap_app.
  - apply IH.
  - done.
Qed.

End Priorities.

(** X10: the priority of a task has no influence on the schedule.  Setting
    every priority of the array to the same value changes the outcome of
    the run in nothing but the priority field of the returned records: the
    same tasks are placed, in the same order, at the same times, or the same
    error is thrown. *)
Theorem priorities_do_not_change_the_schedule
    (wallClock : nat → Date) (this : TaskScheduler) (p : TaskPriority) (w w2 : World) :
  arrays w2 !!! tasks this = withPriority p <$> arrays w !!! tasks this →
  clockReads w2 = clockReads w →
  (autoSchedule wallClock this w2).1
  = match (autoSchedule wallClock this w).1 with
    | Returned out => Returned (withPriority p <$> out)
    | Thrown message => Thrown message
    end.
Proof.
  intros Harr Hclock. rewrite !autoSchedule_run, Harr, Hclock, sort_withPriority.
  set (a2 := <[tasks this := _]> (arrays w2)).
  destruct (scheduleLoop wallClock this (sort compareTasks (arrays w !!! tasks this))
              (generateTimeSlots this) [] _) as [r w1] eqn:E.
  apply (scheduleLoop_arrays_frame _ _ _ a2) in E. simpl in E.
  pose proof (scheduleLoop_withPriority wallClock this p
                (sort compareTasks (arrays w !!! tasks this))
                (generateTimeSlots this) []
                {| arrays := a2; clockReads := clockReads w |}) as Hp.
  simpl in Hp. rewrite Hp, E. by destruct r.
Qed.

(** ** SchedulingUtility.createScheduler *)

(** X11: [createScheduler] does nothing with its configuration.  Whatever
    the configuration, when the two clock readings of the constructor fall
    on the same day the scheduler's workday runs from 08:00 to 20:00 of that
    day, and its grid has 24 slots, the last of which ends at
    [workdayEnd]. *)
Theorem createScheduler_ignores_the_configuration
    (wallClock : nat → Date) (ref : loc) (config : option SchedulingConfig) (w : World) :
  wallClock (clockReads w) / msPerDay = wallClock (S (clockReads w)) / msPerDay →
  let midnight := msPerDay * (wallClock (clockReads w) / msPerDay) in
  ∃ this,
    createScheduler wallClock ref config w
      = (Returned this, {| arrays := arrays w; clockReads := S (S (clockReads w)) |})
    ∧ createScheduler wallClock ref config w = constructor wallClock ref w
    ∧ tasks this = ref
    ∧ workdayStart this = midnight + 8 * msPerHour
    ∧ workdayEnd this = midnight + 20 * msPerHour
    ∧ length (generateTimeSlots this) = 24%nat
    ∧ ∃ slot, last (generateTimeSlots this) = Some slot ∧ slot_end slot = workdayEnd this.
Proof.
  intros Hday midnight.
  assert (createScheduler wallClock ref config w = constructor wallClock ref w) as Hc.
  { unfold createScheduler, mbind, M_bind. rewrite constructor_run. by destruct config. }
  rewrite Hc, constructor_run. eexists. split; [reflexivity|]. split; [reflexivity|].
  cbn [tasks workdayStart workdayEnd].
  assert (setHours (wallClock (clockReads w)) 8 = midnight + 8 * msPerHour) as Hs.
  { unfold setHours, midnight.
    pose proof (Z.div_mod (wallClock (clockReads w)) msPerDay ltac:(done)).
    unfold Date in *. lia. }
  assert (setHours (wallClock (S (clockReads w))) 20 = midnight + 20 * msPerHour) as He.
  { unfold setHours, midnight. rewrite Hday.
    pose proof (Z.div_mod (wallClock (S (clockReads w))) msPerDay ltac:(done)).
    unfold Date in *. lia. }
  rewrite Hs, He. clearbody midnight. split_and!; try done.
  - rewrite generateTimeSlots_length. cbn [workdayStart workdayEnd]. unfold slotCount.
    replace (midnight + 20 * msPerHour - (midnight + 8 * msPerHour) + 1799999)
      with 44999999 by (unfold msPerHour, Date in *; lia).
    reflexivity.
  - exists (slotAt (midnight + 8 * msPerHour) 23). split.
    + rewrite last_lookup, generateTimeSlots_length. cbn [workdayStart workdayEnd].
      assert (slotCount (midnight + 8 * msPerHour) (midnight + 20 * msPerHour) = 24%nat) as Hn.
      { unfold slotCount.
        replace (midnight + 20 * msPerHour - (midnight + 8 * msPerHour) + 1799999)
          with 44999999 by (unfold msPerHour, Date in *; lia).
        reflexivity. }
      rewrite Hn. apply generateTimeSlots_lookup. cbn [workdayStart workdayEnd].
      rewrite Hn. split; [lia | done].
    + unfold slotAt, msPerHour, Date in *. simpl. lia.
Qed.

(** ** The order of the sorted array, and the selectors *)

Lemma filter_rank_above (r : Z) (l : list Task) :
  (∀ y, y ∈ l → rank y < r) → filter (λ a, rank a = r) l = [].
Proof.
  intros Hall. apply elem_of_nil_inv. intros y [Hy Hin]%list_elem_of_filter.
  specialize (Hall y Hin). lia.
Qed.

Lemma rankDescending_blocks (l : list Task) :
  rankDescending l →
  l = filter (λ a, rank a = 4) l ++ filter (λ a, rank a = 2) l
        ++ filter (λ a, rank a = 1) l.
Proof.
  induction l as [|x l IH]; intros Hs; [done|].
  pose proof (rankDescending_head x l Hs) as Hhead.
  apply Sorted_inv in Hs as [Hs _]. specialize (IH Hs).
  rewrite !filter_cons. destruct (type x) eqn:Hx; rewrite (rank_by_type x), Hx in *;
    repeat case_decide; try done; simpl.
  - by rewrite <- IH.
  - rewrite (filter_rank_above 4 l) in * by (intros y Hy; specialize (Hhead y Hy); lia).
    simpl in *. by rewrite <- IH.
  - rewrite (filter_rank_above 4 l) in * by (intros y Hy; specialize (Hhead y Hy); lia).
    rewrite (filter_rank_above 2 l) in * by (intros y Hy; specialize (Hhead y Hy); lia).
    simpl in *. by rewrite <- IH.
Qed.

Lemma filter_rank_type (l : list Task) :
  filter (λ a, rank a = 4) l = filter (λ a, type a = FIXED) l
  ∧ filter (λ a, rank a = 2) l = filter (λ a, type a = ROUTINE) l
  ∧ filter (λ a, rank a = 1) l = filter (λ a, type a = FLEXIBLE) l.
Proof.
  split_and!; apply list_filter_iff; intros a; rewrite rank_by_type;
    destruct (type a); split; intros; (done || lia).
Qed.

Lemma sort_by_type (l : list Task) :
  sort compareTasks l
  = filter (λ a, type a = FIXED) l ++ filter (λ a, type a = ROUTINE) l
      ++ filter (λ a, type a = FLEXIBLE) l.
Proof.
  rewrite (rankDescending_blocks _ (sort_sorted l)) at 1.
  rewrite !sort_stable. destruct (filter_rank_type l) as (-> & -> & ->). done.
Qed.


(** C9 (the code departs from the claim, by the defect of C2): the run does
    sort the caller's own array, in place: whatever it returns or throws,
    the array behind the reference given to the constructor holds afterwards
    the same elements, [prioritizeTasks] returns that same reference, and no
    other array is touched.  But the order it is left in is by type alone,
    Fixed, then Routine, then Flexible, each group in its former order, not
    the priority order of the claim: the array [[flexibleHigh; routineLow]]
    becomes [[routineLow; flexibleHigh]], the High-priority task behind the
    Routine one. *)
Theorem callers_array_is_sorted_in_place_by_type_alone
    (wallClock : nat → Date) (this : TaskScheduler) (w : World) :
  let before := arrays w !!! tasks this in
  let after := arrays (autoSchedule wallClock this w).2 !!! tasks this in
  after = filter (λ a, type a = FIXED) before ++ filter (λ a, type a = ROUTINE) before
            ++ filter (λ a, type a = FLEXIBLE) before
  ∧ after ≡ₚ before
  ∧ (prioritizeTasks this w).1 = Returned (tasks this)
  ∧ (∀ l, l ≠ tasks this → arrays (autoSchedule wallClock this w).2 !! l = arrays w !! l)
  ∧ arrays (autoSchedule wallClock today (worldWith [flexibleHigh; routineLow])).2
      !!! tasks today
    = [routineLow; flexibleHigh]
  ∧ arrays (worldWith [flexibleHigh; routineLow]) !!! tasks today
    = [flexibleHigh; routineLow]
  ∧ priority flexibleHigh = HIGH ∧ type flexibleHigh = FLEXIBLE
  ∧ type routineLow = ROUTINE.
Proof.
  intros before after.
  destruct (autoSchedule_array_after wallClock this w) as (Hafter & Hperm & _ & _ & Hret & Hframe).
  destruct (autoSchedule_array_after wallClock today (worldWith [flexibleHigh; routineLow]))
    as (Hconcrete & _).
  split; [subst after; rewrite Hafter; apply sort_by_type|].
  split; [exact Hperm|]. split; [exact Hret|]. split; [exact Hframe|].
  split; [rewrite Hconcrete; vm_compute; reflexivity|].
  split; [vm_compute; reflexivity|]. split_and!; reflexivity.
Qed.

(** X13: the selections by type split the tasks of the state: every task is
    in the selection of its own type and in no other, each selection keeps
    the order of the state, and the three together are a rearrangement of
    all the tasks; the same holds for the selections by priority. *)
Theorem selections_partition_the_tasks (state : RootState) :
  let all := stateTasks (rootTasks state) in
  (∀ task k, task ∈ selectTasksByType state k ↔ task ∈ all ∧ type task = k)
  ∧ (∀ k, selectTasksByType state k `sublist_of` all)
  ∧ selectTasksByType state FIXED ++ selectTasksByType state ROUTINE
      ++ selectTasksByType state FLEXIBLE ≡ₚ all
  ∧ (∀ task p, task ∈ selectTasksByPriority state p ↔ task ∈ all ∧ priority task = p)
  ∧ (∀ p, selectTasksByPriority state p `sublist_of` all)
  ∧ selectTasksByPriority state HIGH ++ selectTasksByPriority state MEDIUM
      ++ selectTasksByPriority state LOW ≡ₚ all.
Proof.
  intros all. unfold selectTasksByType, selectTasksByPriority. fold all.
  split_and!.
  - intros task k. rewrite list_elem_of_filter. tauto.
  - intros k. apply sublist_filter.
  - rewrite <- sort_by_type. apply sort_perm.
  - intros task p. rewrite list_elem_of_filter. tauto.
  - intros p. apply sublist_filter.
  - induction all as [|x l IH]; [done|].
    rewrite !filter_cons. destruct (priority x); repeat case_decide; try done; simpl.
    + by f_equiv.
    + rewrite <- Permutation_middle. by f_equiv.
    + rewrite app_assoc, <- Permutation_middle, <- app_assoc. by f_equiv.
Qed.

(** ** The reducers of the task slice *)

Lemma findIndexFrom_spec {A} (p : A → bool) (l : list A) :
  ∀ i, 0 ≤ i →
    (findIndexFrom p i l = -1 ∧ ∀ x, x ∈ l → p x = false)
    ∨ ∃ k x, findIndexFrom p i l = i + Z.of_nat k ∧ l !! k = Some x ∧ p x = true
             ∧ ∀ j y, l !! j = Some y → (j < k)%nat → p y = false.
Proof.
  induction l as [|x l IH]; intros i Hi; simpl.
  - left. split; [done|]. intros x Hx. by apply elem_of_nil in Hx.
  - destruct (p x) eqn:Hp.
    + right. exists 0%nat, x. split_and!; [lia | done | done |]. intros; lia.
    + destruct (IH (i + 1) ltac:(lia)) as [[-> Hnone]|(k & y & -> & Hk & Hy & Hmin)].
      * left. split; [done|]. intros y [->|Hy]%elem_of_cons; [done | by apply Hnone].
      * right. exists (S k), y. split_and!; [lia | done | done |].
        intros [|j] z Hj Hlt; simpl in Hj; [by injection Hj as <-|].
        apply (Hmin j z Hj). lia.
Qed.

(** X14: [updateTask] replaces the first task of the state that carries the
    payload's id and touches nothing else: the list of ids, the number of
    tasks and the flags are unchanged, later tasks with the same id stay as
    they are, and when no task carries the id the state is returned as it
    was. *)
Theorem updateTask_replaces_the_first_match (state : TaskState) (payload : Task) :
  task_id <$> stateTasks (updateTask state payload) = task_id <$> stateTasks state
  ∧ loading (updateTask state payload) = loading state
  ∧ error (updateTask state payload) = error state
  ∧ ((∀ t, t ∈ stateTasks state → task_id t ≠ task_id payload) →
     updateTask state payload = state)
  ∧ (∀ k t, stateTasks state !! k = Some t → task_id t = task_id payload →
       (∀ j t', stateTasks state !! j = Some t' → (j < k)%nat →
          task_id t' ≠ task_id payload) →
       stateTasks (updateTask state payload) = <[k := payload]> (stateTasks state)).
Proof.
  unfold updateTask, findIndex.
  destruct (findIndexFrom_spec (λ t, bool_decide (task_id t = task_id payload))
              (stateTasks state) 0 ltac:(done))
    as [[-> Hnone]|(k & x & -> & Hk & Hx & Hmin)].
  - rewrite bool_decide_eq_false_2 by (intros H; by apply H).
    split_and!; try done. intros k t Hk Ht _.
    specialize (Hnone t ltac:(by eapply list_elem_of_lookup_2)).
    by apply bool_decide_eq_false in Hnone.
  - rewrite bool_decide_eq_true_2 by lia. simpl.
    replace (Z.to_nat (0 + Z.of_nat k)) with k by lia.
    apply bool_decide_eq_true in Hx.
    split_and!; try done.
    + rewrite list_fmap_insert, <- Hx. apply list_insert_id. by rewrite list_lookup_fmap, Hk.
    + intros Hall. destruct (Hall x); [by eapply list_elem_of_lookup_2 | done].
    + intros k' t Hk' Ht Hmin'.
      assert (k = k') as <-; [|done].
      destruct (lt_eq_lt_dec k k') as [[Hlt|]|Hlt]; [|done|].
      * destruct (Hmin' k x Hk Hlt Hx).
      * specialize (Hmin k' t Hk' Hlt). by apply bool_decide_eq_false in Hmin.
Qed.

(** X15: [removeTask] removes every task that carries the id and keeps the
    others in their order; removing twice is removing once; removing the id
    of a task just added to a state that did not have the id gives the state
    back. *)
Theorem removeTask_removes_every_match (state : TaskState) (id : string) :
  (∀ t, t ∈ stateTasks (removeTask state id) ↔ t ∈ stateTasks state ∧ task_id t ≠ id)
  ∧ stateTasks (removeTask state id) `sublist_of` stateTasks state
  ∧ removeTask (removeTask state id) id = removeTask state id
  ∧ (∀ task, task_id task = id →
       (∀ t, t ∈ stateTasks state → task_id t ≠ id) →
       removeTask (addTask state task) id = state).
Proof.
  unfold removeTask, addTask. simpl. split_and!.
  - intros t. rewrite list_elem_of_filter. tauto.
  - apply sublist_filter.
  - f_equal. rewrite list_filter_filter. apply list_filter_iff. intros; tauto.
  - intros task Hid Hfresh. destruct state as [ts l e]. simpl in *. f_equal.
    rewrite filter_app, filter_cons_False, filter_nil, app_nil_r by (intros H; by apply H).
    clear -Hfresh. induction ts as [|t ts IH]; [done|].
    rewrite filter_cons_True by (apply Hfresh; by left).
    f_equal. apply IH. intros t' Hin. apply Hfresh. by right.
Qed.

(** ** TaskFactory, TaskValidator and the form *)

Lemma createTask_run
    (wallClock : nat → Date) (fresh : string) (partial : PartialTask) (w : World) :
  ∃ task,
    createTask wallClock fresh partial w
      = (Returned task, {| arrays := arrays w; clockReads := S (clockReads w) |})
    ∧ obj_id task
      = match partial_id partial with Absent => Some fresh | Holds v => v end
    ∧ obj_name task
      = match partial_name partial with Absent => Some "Untitled Task" | Holds v => v end
    ∧ obj_type task
      = match partial_type partial with Absent => Some FLEXIBLE | Holds v => v end
    ∧ obj_priority task
      = match partial_priority partial with Absent => Some MEDIUM | Holds v => v end
    ∧ obj_duration task
      = match partial_duration partial with Absent => Some 30 | Holds v => v end
    ∧ obj_createdAt task
      = match partial_createdAt partial with
        | Absent => Some (wallClock (clockReads w))
        | Holds v => v
        end
    ∧ obj_updatedAt task
      = match partial_updatedAt partial with
        | Absent => Some (wallClock (clockReads w))
        | Holds v => v
        end
    ∧ obj_startTime task = read (partial_startTime partial)
    ∧ obj_endTime task = read (partial_endTime partial)
    ∧ obj_preferredTimeRange task = read (partial_preferredTimeRange partial)
    ∧ obj_frequency task = read (partial_frequency partial).
Proof.
  eexists. split; [reflexivity|].
  cbn [obj_id obj_name obj_type obj_priority obj_duration obj_createdAt obj_updatedAt
       obj_startTime obj_endTime obj_preferredTimeRange obj_frequency].
  split_and!;
    match goal with
    | |- context [spreadOver _ ?key] => by destruct key
    end.
Qed.

(** X16: [createTask] applies a default only to a key the partial does not
    have.  A key that is present is copied as it is, also when it holds the
    empty string, [0] or [undefined]; [updatedAt] is the time of the call
    unless the partial carries one; the call reads the clock once. *)
Theorem createTask_defaults_only_absent_keys
    (wallClock : nat → Date) (fresh : string) (partial : PartialTask) (w : World) :
  ∃ task,
    createTask wallClock fresh partial w
      = (Returned task, {| arrays := arrays w; clockReads := S (clockReads w) |})
    ∧ obj_id task
      = match partial_id partial with Absent => Some fresh | Holds v => v end
    ∧ obj_name task
      = match partial_name partial with Absent => Some "Untitled Task" | Holds v => v end
    ∧ obj_type task
      = match partial_type partial with Absent => Some FLEXIBLE | Holds v => v end
    ∧ obj_priority task
      = match partial_priority partial with Absent => Some MEDIUM | Holds v => v end
    ∧ obj_duration task
      = match partial_duration partial with Absent => Some 30 | Holds v => v end
    ∧ obj_createdAt task
      = match partial_createdAt partial with
        | Absent => Some (wallClock (clockReads w))
        | Holds v => v
        end
    ∧ obj_updatedAt task
      = match partial_updatedAt partial with
        | Absent => Some (wallClock (clockReads w))
        | Holds v => v
        end
    ∧ obj_startTime task = read (partial_startTime partial)
    ∧ obj_endTime task = read (partial_endTime partial)
    ∧ obj_preferredTimeRange task = read (partial_preferredTimeRange partial)
    ∧ obj_frequency task = read (partial_frequency partial).
Proof. apply createTask_run. Qed.

Section ValidationProperties.
Context (trim : string → string).

Lemma validate_true (task : TaskObject) :
  validate trim task = true
  ↔ nameMissing trim task = false ∧ durationNotPositive task = false
    ∧ fixedWithoutStart task = false.
Proof.
  unfold validate.
  destruct (nameMissing trim task), (durationNotPositive task), (fixedWithoutStart task);
    intuition discriminate.
Qed.

(** X17: the messages of the form cover exactly what the validator rejects:
    a task is invalid if and only if at least one message is collected, and
    each message is collected if and only if the rule it names fails; so
    [handleSubmit] never rejects with an empty list of messages and never
    saves a task the validator rejects. *)
Theorem form_messages_match_the_validator
    (wallClock : nat → Date) (fresh : string) (task : TaskObject) :
  (validate trim task = false ↔ validationErrors trim task ≠ [])
  ∧ ("Task name is required" ∈ validationErrors trim task
     ↔ nameMissing trim task = true)
  ∧ ("Task duration must be greater than 0 minutes" ∈ validationErrors trim task
     ↔ durationNotPositive task = true)
  ∧ ("Fixed tasks require a start time" ∈ validationErrors trim task
     ↔ fixedWithoutStart task = true)
  ∧ (∀ formData w w' errors,
       handleSubmit trim wallClock fresh formData w = (Returned (Rejected errors), w') →
       errors ≠ [])
  ∧ (∀ formData w w' saved,
       handleSubmit trim wallClock fresh formData w = (Returned (Saved saved), w') →
       validate trim saved = true).
Proof.
  assert (∀ t, validate trim t = false ↔ validationErrors trim t ≠ []) as Hiff.
  { intros t. unfold validate, validationErrors.
    destruct (nameMissing trim t), (durationNotPositive t), (fixedWithoutStart t);
      simpl; split; done. }
  split_and!.
  - apply Hiff.
  - unfold validationErrors.
    destruct (nameMissing trim task), (durationNotPositive task), (fixedWithoutStart task);
      simpl; rewrite ?elem_of_cons, ?elem_of_nil; intuition (try discriminate; auto).
  - unfold validationErrors.
    destruct (nameMissing trim task), (durationNotPositive task), (fixedWithoutStart task);
      simpl; rewrite ?elem_of_cons, ?elem_of_nil; intuition (try discriminate; auto).
  - unfold validationErrors.
    destruct (nameMissing trim task), (durationNotPositive task), (fixedWithoutStart task);
      simpl; rewrite ?elem_of_cons, ?elem_of_nil; intuition (try discriminate; auto).
  - intros formData w w' errors. unfold handleSubmit, mbind, M_bind.
    destruct (createTask_run wallClock fresh formData w)
      as (t & -> & _).
    destruct (validate trim t) eqn:Hv; [done|]. intros [= <- _]. by apply Hiff.
  - intros formData w w' saved. unfold handleSubmit, mbind, M_bind.
    destruct (createTask_run wallClock fresh formData w)
      as (t & -> & _).
    destruct (validate trim t) eqn:Hv; [|done]. by intros [= <- _].
Qed.

End ValidationProperties.

(** X18: which form data [handleSubmit] saves.  With a [trim] that leaves
    'Untitled Task' non-empty, the task is saved exactly when the name is
    absent (the default is used) or holds a string that is not blank, the
    duration is absent, [undefined] or positive, and a type that holds Fixed
    comes with a start time. *)
Theorem handleSubmit_saves_iff
    (trim : string → string) (wallClock : nat → Date) (fresh : string)
    (formData : PartialTask) (w : World) :
  trim "Untitled Task" ≠ "" →
  (∃ task w', handleSubmit trim wallClock fresh formData w = (Returned (Saved task), w'))
  ↔ nameGiven trim formData ∧ durationGiven formData ∧ startGiven formData.
Proof.
  intros Htrim. unfold handleSubmit, mbind, M_bind.
  destruct (createTask_run wallClock fresh formData w)
    as (t & -> & _ & Hname & Htype & _ & Hdur & _ & _ & Hstart & _).
  assert (validate trim t = true
          ↔ nameGiven trim formData ∧ durationGiven formData ∧ startGiven formData) as Hv.
  { rewrite validate_true.
    unfold nameMissing, durationNotPositive, fixedWithoutStart,
      nameGiven, durationGiven, startGiven.
    rewrite Hname, Htype, Hdur, Hstart.
    assert (∀ a b c a' b' c' : Prop, (a ↔ a') → (b ↔ b') → (c ↔ c') →
              (a ∧ b ∧ c ↔ a' ∧ b' ∧ c')) as Hand by tauto.
    apply Hand.
    - destruct (partial_name formData) as [|[n|]]; [| |done].
      + rewrite orb_false_iff, !bool_decide_eq_false. split; [done|]. by intros _.
      + by rewrite orb_false_iff, !bool_decide_eq_false.
    - destruct (partial_duration formData) as [|[d|]]; [| |done].
      + rewrite bool_decide_eq_false. split; [done | lia].
      + rewrite bool_decide_eq_false. lia.
    - rewrite andb_false_iff, !bool_decide_eq_false.
      destruct (partial_type formData) as [|[k|]].
      + split; [done|]. intros _. left. done.
      + destruct (read (partial_startTime formData)) as [s|].
        * split; [intros _ _; by eexists | intros _; by right].
        * split.
          -- intros [Hk|Hs]; [|done]. intros [= ->]. done.
          -- intros Hfix. left. intros [= ->]. by destruct Hfix as [s ?].
      + split; [done|]. intros _. left. done. }
  destruct (validate trim t) eqn:Hval.
  - split; [intros _; by apply Hv | intros _; by eexists _, _].
  - split; [by intros (? & ? & ?) | intros H%Hv; done].
Qed.

(** A well-typed task the validator accepts, at the engine. *)
Lemma validated_task_at_the_engine
    (trim : string → string) (wallClock : nat → Date) (this : TaskScheduler)
    (task : Task) (slots : list TimeSlot) (w : World) :
  validate trim (objectOf task) = true →
  0 < duration task
  ∧ name task ≠ ""
  ∧ (type task = FIXED →
     fixedWithStart task
     ∧ scheduleTask wallClock this task slots w
       = match scheduleFixedTask wallClock this task w with
         | (Returned placed, w') => (Returned (Some placed, slots), w')
         | (Thrown message, w') => (Thrown message, w')
         end)
  ∧ (slotBased task → type task ≠ FIXED)
  ∧ (∀ placed slots' w',
       slotBased task →
       scheduleTask wallClock this task slots w = (Returned (Some placed, slots'), w') →
       ∃ s e, startTime placed = Some s ∧ endTime placed = Some e ∧ s < e).
Proof.
  intros (Hname & Hdur & Hfix)%validate_true.
  unfold nameMissing, durationNotPositive, fixedWithoutStart in *. simpl in *.
  apply orb_false_iff in Hname as [Hname%bool_decide_eq_false _].
  apply bool_decide_eq_false in Hdur.
  assert (type task = FIXED → fixedWithStart task) as Hfixed.
  { intros Ht. split; [done|].
    rewrite Ht in Hfix. rewrite bool_decide_eq_true_2 in Hfix by done. simpl in Hfix.
    apply bool_decide_eq_false in Hfix. destruct (startTime task); [by eexists | done]. }
  split_and!; [lia | done | | |].
  - intros Ht. split; [by apply Hfixed|]. by apply scheduleTask_fixed, Hfixed.
  - intros Hs Ht. by apply Hs, Hfixed.
  - intros placed slots' w' Hs Hrun.
    apply (scheduleTask_slotBased_step _ _ _ _ _ _ _ Hs) in Hrun
      as [_ [[=]|(k & slot & _ & _ & _ & [= -> _])]].
    exists (slot_start slot), (slot_start slot + duration task * 60000).
    split_and!; [done | done |]. unfold Date in *. lia.
Qed.

Lemma validate_accepts (trim : string → string) (object : TaskObject) :
  validate trim object = true
  ↔ (∃ n, obj_name object = Some n ∧ n ≠ "" ∧ trim n ≠ "")
    ∧ (obj_duration object = None ∨ ∃ d, obj_duration object = Some d ∧ 0 < d)
    ∧ (obj_type object = Some FIXED → is_Some (obj_startTime object)).
Proof.
  rewrite validate_true. unfold nameMissing, durationNotPositive, fixedWithoutStart.
  assert (∀ a b c a' b' c' : Prop, (a ↔ a') → (b ↔ b') → (c ↔ c') →
            (a ∧ b ∧ c ↔ a' ∧ b' ∧ c')) as Hand by tauto.
  apply Hand.
  - destruct (obj_name object) as [n|].
    + rewrite orb_false_iff, !bool_decide_eq_false. split.
      * intros [? ?]. by exists n.
      * by intros (n' & [= <-] & ? & ?).
    + split; [done|]. by intros (n & ? & _).
  - destruct (obj_duration object) as [d|].
    + rewrite bool_decide_eq_false. split.
      * intros Hd. right. exists d. split; [done | lia].
      * intros [?|(d' & [= <-] & ?)]; [done | lia].
    + split; [by left | done].
  - rewrite andb_false_iff, !bool_decide_eq_false. split.
    + intros [Hk|Hs] Ht; [done|]. by destruct (obj_startTime object); [eexists|].
    + intros Hfix. destruct (decide (obj_type object = Some FIXED)) as [Ht|Ht]; [|by left].
      right. destruct (Hfix Ht) as [s ->]. done.
Qed.

(** X19: the validator accepts an object exactly when its name is a string
    that is not blank, its duration is positive or [undefined] (a missing
    duration is not a reason to reject), and a type that is Fixed comes with
    a [startTime].  A well-typed task, every required field of which is
    defined, that the validator accepts therefore steers clear of the
    engine's two edge cases: its duration is positive, so that a slot-based
    placement gives it a non-empty interval, and when it is Fixed it has a
    [startTime], so that [scheduleTask] hands it to fixed placement and
    never to the grid. *)
Theorem validated_task_meets_the_engine
    (trim : string → string) (wallClock : nat → Date) (this : TaskScheduler) :
  (∀ object,
     validate trim object = true
     ↔ (∃ n, obj_name object = Some n ∧ n ≠ "" ∧ trim n ≠ "")
       ∧ (obj_duration object = None ∨ ∃ d, obj_duration object = Some d ∧ 0 < d)
       ∧ (obj_type object = Some FIXED → is_Some (obj_startTime object)))
  ∧ (∀ task slots w,
       validate trim (objectOf task) = true →
       0 < duration task
       ∧ name task ≠ ""
       ∧ (type task = FIXED →
          fixedWithStart task
          ∧ scheduleTask wallClock this task slots w
            = match scheduleFixedTask wallClock this task w with
              | (Returned placed, w') => (Returned (Some placed, slots), w')
              | (Thrown message, w') => (Thrown message, w')
              end)
       ∧ (slotBased task → type task ≠ FIXED)
       ∧ (∀ placed slots' w',
            slotBased task →
            scheduleTask wallClock this task slots w
              = (Returned (Some placed, slots'), w') →
            ∃ s e, startTime placed = Some s ∧ endTime placed = Some e ∧ s < e)).
Proof.
  split.
  - intros object. apply validate_accepts.
  - intros task slots w. apply validated_task_at_the_engine.
Qed.

(** ** The calendar events *)

(** X20: the calendar shows one event per task, in the order of the tasks,
    with the task's id, name and times, and the colour of an event is the
    colour of the task's priority whatever the type: the priority lookup
    always succeeds, so the colours of the types are never used. *)
Theorem event_colour_follows_the_priority (tasks' : list Task) :
  event_id <$> calendarEvents tasks' = task_id <$> tasks'
  ∧ ∀ k task, tasks' !! k = Some task →
      ∃ event, calendarEvents tasks' !! k = Some event
        ∧ backgroundColor event = Some (priorityColor (priority task))
        ∧ title event = name task
        ∧ event_start event = startTime task ∧ event_end event = endTime task
        ∧ event_type event = type task ∧ event_priority event = priority task.
Proof.
  unfold calendarEvents. split.
  - rewrite <- list_fmap_compose. by apply list_fmap_ext.
  - intros k task Hk. rewrite list_lookup_fmap, Hk. simpl. eexists. split; [reflexivity|].
    simpl. split_and!; try done.
    destruct (priority task), (type task); vm_compute; reflexivity.
Qed.

(** * The theorems at concrete inputs *)

Lemma fixed_task_outside_workday_witness :
  fixedTooEarly ∈ arrays (worldWith [flexibleHigh; fixedTooEarly]) !!! tasks today
  ∧ ∃ w', autoSchedule afternoon today (worldWith [flexibleHigh; fixedTooEarly])
          = (Thrown "Fixed task outside of workday", w').
Proof.
  assert (fixedTooEarly ∈ arrays (worldWith [flexibleHigh; fixedTooEarly]) !!! tasks today)
    as Hin by (vm_compute; repeat constructor).
  split; [exact Hin|].
  apply (fixed_task_outside_workday_aborts_the_run afternoon today
           (worldWith [flexibleHigh; fixedTooEarly]) fixedTooEarly (at_ 7 30));
    [exact Hin | reflexivity | reflexivity |].
  vm_compute. intros [H _]. apply H. reflexivity.
Defined.

Lemma slot_placements_witness :
  ∃ out w',
    autoSchedule afternoon today (worldWith busyDay) = (Returned out, w')
    ∧ length out = 5%nat
    ∧ ∃ trace, out = trace.*2
        ∧ ∀ i j a b, i ≠ j → trace !! i = Some a → trace !! j = Some b →
            slotBased a.1 → slotBased b.1 →
            separated a.2 b.2 ∧ ∀ x, ¬ (occupies a.2 x ∧ occupies b.2 x).
Proof.
  destruct (autoSchedule afternoon today (worldWith busyDay)) as [[out|e] w'] eqn:Hrun;
    [|vm_compute in Hrun; discriminate].
  exists out, w'. split; [reflexivity|]. split.
  - vm_compute in Hrun. injection Hrun as <- _. reflexivity.
  - destruct (slot_placements_never_overlap afternoon today _ _ _ Hrun)
      as [(trace & _ & Hout & Hsep) _].
    exists trace. split; [exact Hout | exact Hsep].
Defined.

Lemma generateTimeSlots_witness :
  workdayStart today ≤ workdayEnd today
  ∧ Z.of_nat (length (generateTimeSlots today)) = 24
  ∧ ∃ slot, head (generateTimeSlots today) = Some slot ∧ slot_start slot = at_ 8 0.
Proof.
  assert (workdayStart today ≤ workdayEnd today) as Hwin by (vm_compute; discriminate).
  destruct (generateTimeSlots_tiles_the_workday today Hwin)
    as (_ & Hfirst & _ & _ & Hcount & _).
  split; [exact Hwin|]. split.
  - rewrite Hcount. reflexivity.
  - apply Hfirst. reflexivity.
Defined.



Lemma fixed_task_without_start_witness :
  type fixedNoStart = FIXED ∧ startTime fixedNoStart = None
  ∧ ∃ r, scheduleTask afternoon today fixedNoStart (generateTimeSlots today) (worldWith [])
         = (Returned r, worldWith []).
Proof.
  split; [reflexivity|]. split; [reflexivity|].
  destruct (fixed_task_without_start_goes_to_the_grid afternoon today fixedNoStart
              (generateTimeSlots today) (worldWith []) eq_refl eq_refl)
    as (_ & r & Hr & _).
  exists r. exact Hr.
Defined.

Lemma nonpositive_duration_witness :
  duration zeroMinutes ≤ 0
  ∧ ∀ slot, slot ∈ generateTimeSlots today → canFitTask slot zeroMinutes = true.
Proof.
  assert (duration zeroMinutes ≤ 0) as Hd by (vm_compute; discriminate).
  split; [exact Hd|].
  apply (nonpositive_duration_fits_every_slot afternoon today zeroMinutes
           (generateTimeSlots today) (worldWith []) Hd (gridState_generated today)).
Defined.

Lemma longer_than_a_slot_witness :
  30 < duration workshop
  ∧ scheduleTask afternoon today workshop (generateTimeSlots today) (worldWith [])
    = (Returned (None, generateTimeSlots today), worldWith []).
Proof.
  assert (30 < duration workshop) as Hd by reflexivity.
  split; [exact Hd|].
  apply (longer_than_a_slot_is_never_placed afternoon today workshop
           (generateTimeSlots today) (worldWith []) (gridState_generated today));
    [|exact Hd].
  intros [H _]. discriminate H.
Defined.

Lemma slot_placement_bounds_witness :
  ∃ placed s e,
    startTime placed = Some s ∧ endTime placed = Some e
    ∧ range_start lateMorning ≤ s ∧ e ≤ range_end lateMorning ∧ s < e.
Proof.
  destruct (scheduleTask afternoon today preferred (generateTimeSlots today) (worldWith []))
    as [[[[placed|] slots']|message] w'] eqn:Hrun;
    [|vm_compute in Hrun; discriminate Hrun|vm_compute in Hrun; discriminate Hrun].
  assert (slotBased preferred) as Hs by (intros [H _]; discriminate H).
  destruct (slot_placement_stays_in_bounds afternoon today preferred placed
              (generateTimeSlots today) slots' (worldWith []) w'
              (gridState_generated today) Hs Hrun)
    as (s & e & Hstart & Hend & _ & _ & _ & _ & _ & Hrange & Hpos & _).
  destruct (Hrange lateMorning eq_refl) as [Hlo Hhi].
  exists placed, s, e. repeat split; try assumption. apply Hpos. reflexivity.
Defined.

Lemma output_provenance_witness :
  ∃ out w',
    autoSchedule afternoon today (worldWith busyDay) = (Returned out, w')
    ∧ rankDescending out ∧ (length out ≤ length busyDay)%nat.
Proof.
  destruct (autoSchedule afternoon today (worldWith busyDay)) as [[out|e] w'] eqn:Hrun;
    [|vm_compute in Hrun; discriminate Hrun].
  destruct (output_is_drawn_from_the_sorted_array afternoon today _ _ _ Hrun)
    as (trace & _ & _ & _ & Hlen & Hsorted).
  exists out, w'. split; [reflexivity|]. split; [exact Hsorted | exact Hlen].
Defined.

Lemma grid_capacity_witness :
  ∃ out w' trace,
    autoSchedule afternoon today (worldWith busyDay) = (Returned out, w')
    ∧ out = trace.*2 ∧ (length (slotEntries trace) ≤ 24)%nat.
Proof.
  destruct (autoSchedule afternoon today (worldWith busyDay)) as [[out|e] w'] eqn:Hrun;
    [|vm_compute in Hrun; discriminate Hrun].
  destruct (grid_capacity_bounds_slot_placements afternoon today _ _ _ Hrun)
    as [(trace & _ & Hout & Hlen & _) _].
  exists out, w', trace. split; [reflexivity|]. split; [exact Hout | exact Hlen].
Defined.

Lemma flexible_task_placed_witness :
  duration flexibleA ≤ 30
  ∧ ∃ placed slots',
      scheduleTask afternoon today flexibleA (generateTimeSlots today) (worldWith [])
      = (Returned (Some placed, slots'), worldWith []).
Proof.
  assert (duration flexibleA ≤ 30) as Hd by (vm_compute; discriminate).
  assert (slotBased flexibleA) as Hs by (intros [H _]; discriminate H).
  split; [exact Hd|].
  apply (flexible_task_dropped_iff_grid_full afternoon today flexibleA
           (generateTimeSlots today) (worldWith [])
           (gridState_generated today) Hs eq_refl Hd).
  vm_compute. discriminate.
Defined.

Lemma fixed_tasks_take_no_slot_witness :
  ∃ out w' trace,
    autoSchedule afternoon today (worldWith [fixedAtNine; flexibleA]) = (Returned out, w')
    ∧ out = trace.*2
    ∧ (autoSchedule afternoon today (worldWith [flexibleA])).1
      = Returned (slotEntries trace).*2.
Proof.
  destruct (autoSchedule afternoon today (worldWith [fixedAtNine; flexibleA]))
    as [[out|e] w'] eqn:Hrun; [|vm_compute in Hrun; discriminate Hrun].
  assert (arrays (worldWith [flexibleA]) !!! tasks today
          = filter slotBased (arrays (worldWith [fixedAtNine; flexibleA]) !!! tasks today))
    as Harr by (vm_compute; reflexivity).
  destruct (fixed_tasks_take_no_slot afternoon today _ _ _ _ Harr Hrun)
    as (trace & _ & Hout & _ & Hsame).
  exists out, w', trace. split; [reflexivity|]. split; [exact Hout | exact Hsame].
Defined.

Lemma priorities_witness :
  (autoSchedule afternoon today (worldWith (withPriority LOW <$> busyDay))).1
  = match (autoSchedule afternoon today (worldWith busyDay)).1 with
    | Returned out => Returned (withPriority LOW <$> out)
    | Thrown message => Thrown message
    end.
Proof.
  apply (priorities_do_not_change_the_schedule afternoon today LOW
           (worldWith busyDay) (worldWith (withPriority LOW <$> busyDay)));
    vm_compute; reflexivity.
Defined.

Lemma createScheduler_witness :
  ∃ this,
    (createScheduler afternoon theArray None (worldWith [])).1 = Returned this
    ∧ workdayStart this = at_ 8 0 ∧ workdayEnd this = at_ 20 0
    ∧ length (generateTimeSlots this) = 24%nat.
Proof.
  assert (afternoon (clockReads (worldWith [])) / msPerDay
          = afternoon (S (clockReads (worldWith []))) / msPerDay) as Hday
    by (vm_compute; reflexivity).
  destruct (createScheduler_ignores_the_configuration afternoon theArray None
              (worldWith []) Hday) as (this & Hrun & _ & _ & Hs & He & Hlen & _).
  exists this. rewrite Hrun. split; [reflexivity|]. split; [|split].
  - rewrite Hs. vm_compute. reflexivity.
  - rewrite He. vm_compute. reflexivity.
  - exact Hlen.
Defined.

Lemma handleSubmit_witness :
  ∃ task w',
    handleSubmit (λ s, s) afternoon "fresh-id" emptyForm (worldWith [])
    = (Returned (Saved task), w').
Proof.
  apply (handleSubmit_saves_iff (λ s, s) afternoon "fresh-id" emptyForm (worldWith []));
    [discriminate|].
  split; [exact I|]. split; [exact I|]. intros H. discriminate H.
Defined.

Lemma validated_task_witness :
  validate (λ s, s) (objectOf fixedAtNine) = true
  ∧ 0 < duration fixedAtNine ∧ fixedWithStart fixedAtNine.
Proof.
  assert (validate (λ s, s) (objectOf fixedAtNine) = true) as Hv by reflexivity.
  destruct (validated_task_meets_the_engine (λ s, s) afternoon today) as [_ Hwell].
  destruct (Hwell fixedAtNine (generateTimeSlots today) (worldWith []) Hv)
    as (Hd & _ & Hfix & _).
  split; [exact Hv|]. split; [exact Hd|]. apply Hfix. reflexivity.
Defined.

Lemma clock_reads_witness :
  ∃ out w',
    autoSchedule afternoon today (worldWith [fixedAtNine; flexibleA]) = (Returned out, w')
    ∧ clockReads w' = 1%nat.
Proof.
  destruct (autoSchedule afternoon today (worldWith [fixedAtNine; flexibleA]))
    as [[out|e] w'] eqn:Hrun; [|vm_compute in Hrun; discriminate Hrun].
  destruct (run_reads_the_clock_only_for_fixed_tasks afternoon today
              (worldWith [fixedAtNine; flexibleA])) as [Hreads _].
  exists out, w'. split; [reflexivity|]. rewrite (Hreads out w' Hrun).
  vm_compute. reflexivity.
Defined.
